(** * The remote-objects registry (lib/browser/objects-registry.js)

    A shallow embedding of the [ObjectsRegistry] class: the three tables
    ([storage], [owners], [contexts]), the [atomId] hidden value kept on
    every registered object, and the two event listeners that [add]
    installs on a [WebContents].

    Modelling conventions.
    - JavaScript numbers that the module manipulates (handle ids, reference
      counts, process ids, WebContents ids) are integers; they are modelled
      as [Z], without the 2^53 precision limit of doubles, and a template
      literal renders them in decimal ([pretty]).
    - A JavaScript object used as a dictionary is a [gmap]; keys are assumed
      not to collide with the property names of [Object.prototype].
    - A [Set] is a [gset]: the only iteration over a set, the loop of
      [clear], does not depend on the order of enumeration
      ([dereference_all_permutation]).
    - An exception is a [Throw] completion; the state reached when the
      exception is raised is kept.
    - A [WebContents] object is identified by its [id]; the value handed to
      [add] and [remove] carries the process id that [getProcessId()]
      answers at the time of the call. *)

From Stdlib Require Import Ascii.
From stdpp Require Import gmap strings pretty list fin_maps.

Local Open Scope Z_scope.

(** ** Data model *)

(** Identity of a JavaScript object handed to the registry. *)
Abbreviation obj := nat.

(** Outcome of a call that may raise a [TypeError]. *)
Inductive completion (A : Type) : Type :=
  | Return (a : A)
  | Throw.
Arguments Return {A} a.
Arguments Throw {A}.

(** The two members of a WebContents that the module reads. *)
Record WebContents := {
  wc_id : Z;            (* webContents.id *)
  wc_processId : Z      (* webContents.getProcessId() *)
}.

(** What [getOwnerKey] may receive as its first argument: line 156 hands it
    a number. *)
Inductive jsvalue :=
  | JsWebContents (w : WebContents)
  | JsNumber (n : Z).

(** storage: (id) => {object, count} *)
Record pointer := { object : obj; count : Z }.

(** owners: (ownerKey) => {contextId, [id]} *)
Record owner := { contextId : string; storageSet : gset Z }.

(** contexts: (contextId) => {oldOwnerKey, newOwnerKey} *)
Record context := { oldOwnerKey : string; newOwnerKey : string }.

Inductive event_name := RenderViewDeleted | RenderFrameChanged.

(** A listener closure: the variables it captured, and [l_closure], the
    identity of the function object ([removeListener] compares functions by
    identity). *)
Record listener := {
  l_closure : nat;
  l_event : event_name;
  l_emitter : Z;          (* id of the captured webContents *)
  l_ownerKey : string;
  l_contextId : string;
  l_processId : Z
}.

Global Instance event_name_eq_dec : EqDecision event_name.
Proof. solve_decision. Defined.

Record ObjectsRegistry := {
  nextId : Z;
  storage : gmap Z pointer;
  owners : gmap string owner;
  contexts : gmap string context;
  hidden : gmap nat Z;          (* v8Util hidden value 'atomId' of each object *)
  listeners : list listener;    (* listeners registered on the WebContents *)
  closures : nat                (* number of listener closures created *)
}.

(** constructor () *)
Definition constructor : ObjectsRegistry :=
  {| nextId := 0; storage := ∅; owners := ∅; contexts := ∅;
     hidden := ∅; listeners := []; closures := 0 |}.

Definition set_storage (f : gmap Z pointer → gmap Z pointer) (s : ObjectsRegistry) :=
  {| nextId := nextId s; storage := f (storage s); owners := owners s;
     contexts := contexts s; hidden := hidden s; listeners := listeners s;
     closures := closures s |}.

Definition set_owners (f : gmap string owner → gmap string owner) (s : ObjectsRegistry) :=
  {| nextId := nextId s; storage := storage s; owners := f (owners s);
     contexts := contexts s; hidden := hidden s; listeners := listeners s;
     closures := closures s |}.

Definition set_contexts (f : gmap string context → gmap string context) (s : ObjectsRegistry) :=
  {| nextId := nextId s; storage := storage s; owners := owners s;
     contexts := f (contexts s); hidden := hidden s; listeners := listeners s;
     closures := closures s |}.

Definition set_hidden (f : gmap nat Z → gmap nat Z) (s : ObjectsRegistry) :=
  {| nextId := nextId s; storage := storage s; owners := owners s;
     contexts := contexts s; hidden := f (hidden s); listeners := listeners s;
     closures := closures s |}.

Definition set_listeners (f : list listener → list listener) (s : ObjectsRegistry) :=
  {| nextId := nextId s; storage := storage s; owners := owners s;
     contexts := contexts s; hidden := hidden s; listeners := f (listeners s);
     closures := closures s |}.

(** ** getOwnerKey *)

(** [`${v}`] for a value that is a number or undefined. *)
Definition template (v : option Z) : string :=
  match v with
  | Some n => pretty n
  | None => "undefined"
  end.

(** [v.id]: a number has no such property. *)
Definition get_id (v : jsvalue) : option Z :=
  match v with
  | JsWebContents w => Some (wc_id w)
  | JsNumber _ => None
  end.

(** [v.getProcessId()]: not a function on a number. *)
Definition call_getProcessId (v : jsvalue) : completion Z :=
  match v with
  | JsWebContents w => Return (wc_processId w)
  | JsNumber _ => Throw
  end.

(** [!processId] for an optional numeric argument. *)
Definition falsy (processId : option Z) : bool :=
  match processId with
  | None => true
  | Some n => bool_decide (n = 0)
  end.

Definition getOwnerKey (webContents : jsvalue) (processId : option Z) : completion string :=
  if falsy processId then
    match call_getProcessId webContents with
    | Return pid => Return (template (get_id webContents) +:+ "-" +:+ pretty pid)
    | Throw => Throw
    end
  else
    Return (template (get_id webContents) +:+ "-" +:+ template processId).

(** ** Handle store *)

(** saveToStorage (object) *)
Definition allocate (s : ObjectsRegistry) (o : obj) : ObjectsRegistry * Z :=
  let id := nextId s + 1 in
  ({| nextId := id;
      storage := <[id := {| object := o; count := 0 |}]> (storage s);
      owners := owners s; contexts := contexts s;
      hidden := <[o := id]> (hidden s);
      listeners := listeners s; closures := closures s |}, id).

Definition saveToStorage (s : ObjectsRegistry) (o : obj) : ObjectsRegistry * Z :=
  match hidden s !! o with
  | Some id => if bool_decide (id = 0) then allocate s o else (s, id)
  | None => allocate s o
  end.

(** get (id) *)
Definition get (s : ObjectsRegistry) (id : Z) : option obj :=
  object <$> storage s !! id.

(** dereference (id) *)
Definition dereference (s : ObjectsRegistry) (id : Z) : ObjectsRegistry :=
  match storage s !! id with
  | None => s
  | Some p =>
      if bool_decide (count p - 1 = 0) then
        set_storage (delete id) (set_hidden (delete (object p)) s)
      else
        set_storage <[id := {| object := object p; count := count p - 1 |}]> s
  end.

(** ** Listeners *)

Definition new_listener (ev : event_name) (w : WebContents) (key ctx : string)
    (s : ObjectsRegistry) : ObjectsRegistry :=
  {| nextId := nextId s; storage := storage s; owners := owners s;
     contexts := contexts s; hidden := hidden s;
     listeners := listeners s ++
       [ {| l_closure := closures s; l_event := ev; l_emitter := wc_id w;
            l_ownerKey := key; l_contextId := ctx;
            l_processId := wc_processId w |} ];
     closures := S (closures s) |}.

(** registerDeleteListener (webContents, ownerKey, contextId) *)
Definition registerDeleteListener := new_listener RenderViewDeleted.

(** registerProcessChangeListener (webContents, ownerKey, contextId) *)
Definition registerProcessChangeListener := new_listener RenderFrameChanged.

(** webContents.removeListener(name, listener) *)
Definition removeListener (l : listener) (s : ObjectsRegistry) : ObjectsRegistry :=
  set_listeners (filter (λ l', l_closure l' ≠ l_closure l)) s.

(** ** The public operations *)

(** clear (ownerKey, contextId) *)
Definition clear (s : ObjectsRegistry) (ownerKey ctx : string) : ObjectsRegistry :=
  match owners s !! ownerKey with
  | None => s
  | Some o =>
      if bool_decide (contextId o ≠ ctx) then s
      else
        let s1 := foldl dereference s (elements (storageSet o)) in
        set_contexts (delete ctx) (set_owners (delete ownerKey) s1)
  end.

(** remove (webContents, contextId, id) *)
Definition remove (s : ObjectsRegistry) (w : WebContents) (ctx : string) (id : Z)
    : ObjectsRegistry :=
  match getOwnerKey (JsWebContents w) None with
  | Throw => s           (* not reached: [w] is a WebContents *)
  | Return ownerKey =>
      match owners s !! ownerKey with
      | Some o =>
          if bool_decide (contextId o = ctx) then
            dereference
              (set_owners <[ownerKey := {| contextId := contextId o;
                                           storageSet := storageSet o ∖ {[id]} |}]> s)
              id
          else s
      | None => s
      end
  end.

Definition registerBoth (w : WebContents) (key ctx : string) (s : ObjectsRegistry) :=
  registerProcessChangeListener w key ctx (registerDeleteListener w key ctx s).

(** Lines 37-66 of [add]: find or create the owner record, and return the
    key under which the variable [owner] is stored afterwards. *)
Definition resolveOwner (s : ObjectsRegistry) (w : WebContents) (ownerKey ctx : string)
    : ObjectsRegistry * string :=
  match owners s !! ownerKey with
  | None =>
      (registerBoth w ownerKey ctx
         (set_owners <[ownerKey := {| contextId := ctx; storageSet := ∅ |}]> s),
       ownerKey)
  | Some o =>
      if bool_decide (contextId o ≠ ctx) then
        let reload :=
          (registerBoth w ownerKey ctx
             (set_owners <[ownerKey := {| contextId := ctx;
                                          storageSet := storageSet o |}]> s),
           ownerKey) in
        match contexts s !! contextId o with
        | Some c =>
            if bool_decide (oldOwnerKey c = ownerKey) then
              (* [owner] now is the new record, so [owner.contextId] on line
                 58 is the [contextId] argument. *)
              (registerBoth w (newOwnerKey c) ctx
                 (set_contexts (delete ctx)
                    (set_owners <[newOwnerKey c := {| contextId := ctx;
                                                      storageSet := ∅ |}]> s)),
               newOwnerKey c)
            else reload
        | None => reload
        end
      else (s, ownerKey)
  end.

(** Lines 67-72 of [add]. *)
Definition reference (s : ObjectsRegistry) (key : string) (id : Z)
    : ObjectsRegistry * completion Z :=
  match owners s !! key with
  | None => (s, Throw)   (* not reached: a record is stored under [key] *)
  | Some o =>
      if bool_decide (id ∈ storageSet o) then (s, Return id)
      else
        let s1 := set_owners <[key := {| contextId := contextId o;
                                         storageSet := {[id]} ∪ storageSet o |}]> s in
        match storage s1 !! id with
        | Some p =>
            (set_storage <[id := {| object := object p; count := count p + 1 |}]> s1,
             Return id)
        | None => (s1, Throw)
        end
  end.

(** add (webContents, contextId, obj) *)
Definition add (s : ObjectsRegistry) (w : WebContents) (ctx : string) (o : obj)
    : ObjectsRegistry * completion Z :=
  let '(s1, id) := saveToStorage s o in
  match getOwnerKey (JsWebContents w) None with
  | Throw => (s1, Throw)
  | Return ownerKey =>
      let '(s2, key) := resolveOwner s1 w ownerKey ctx in
      reference s2 key id
  end.

(** ** Events *)

Inductive event :=
  | render_view_deleted (deletedProcessId : Z)
  | render_frame_changed (oldProcessId newProcessId : Z).

Definition name_of (e : event) : event_name :=
  match e with
  | render_view_deleted _ => RenderViewDeleted
  | render_frame_changed _ _ => RenderFrameChanged
  end.

(** The body of the closure of [registerDeleteListener]. *)
Definition deleteListener (l : listener) (deletedProcessId : Z) (s : ObjectsRegistry)
    : ObjectsRegistry :=
  if bool_decide (deletedProcessId = l_processId l) then
    clear (removeListener l s) (l_ownerKey l) (l_contextId l)
  else s.

(** The body of the closure of [registerProcessChangeListener]. *)
Definition processChangeListener (l : listener) (oldProcessId newProcessId : Z)
    (s : ObjectsRegistry) : ObjectsRegistry * completion unit :=
  if bool_decide (oldProcessId = l_processId l) then
    match owners s !! l_ownerKey l with
    | Some _ =>
        match getOwnerKey (JsNumber (l_emitter l)) (Some newProcessId) with
        | Return newKey =>
            (removeListener l
               (set_contexts <[l_contextId l := {| oldOwnerKey := l_ownerKey l;
                                                   newOwnerKey := newKey |}]> s),
             Return ())
        | Throw => (s, Throw)
        end
    | None => (s, Return ())
    end
  else (s, Return ()).

Definition call_listener (l : listener) (e : event) (s : ObjectsRegistry)
    : ObjectsRegistry * completion unit :=
  match l_event l, e with
  | RenderViewDeleted, render_view_deleted pid => (deleteListener l pid s, Return ())
  | RenderFrameChanged, render_frame_changed old new => processChangeListener l old new s
  | _, _ => (s, Return ())
  end.

(** The listeners are called in registration order; an exception stops the
    emission. *)
Fixpoint call_listeners (ls : list listener) (e : event) (s : ObjectsRegistry)
    : ObjectsRegistry * completion unit :=
  match ls with
  | [] => (s, Return ())
  | l :: ls' =>
      match call_listener l e s with
      | (s', Return _) => call_listeners ls' e s'
      | (s', Throw) => (s', Throw)
      end
  end.

(** webContents.emit(name, event, ...args): the listeners registered when the
    emission starts are the ones called. *)
Definition emit (s : ObjectsRegistry) (emitter : Z) (e : event)
    : ObjectsRegistry * completion unit :=
  call_listeners
    (filter (λ l, l_emitter l = emitter ∧ l_event l = name_of e) (listeners s)) e s.

(** ** Runs of the registry *)

Inductive call :=
  | Add (w : WebContents) (ctx : string) (o : obj)
  | Remove (w : WebContents) (ctx : string) (id : Z)
  | Clear (ownerKey ctx : string)
  | Emit (emitter : Z) (e : event).

(** One call: the state it leaves and the handle it returns, if any. *)
Definition step (s : ObjectsRegistry) (c : call) : ObjectsRegistry * option Z :=
  match c with
  | Add w ctx o =>
      match add s w ctx o with
      | (s', Return id) => (s', Some id)
      | (s', Throw) => (s', None)
      end
  | Remove w ctx id => (remove s w ctx id, None)
  | Clear k ctx => (clear s k ctx, None)
  | Emit em e => ((emit s em e).1, None)
  end.

Definition run_from (s : ObjectsRegistry) (cs : list call) : ObjectsRegistry :=
  foldl (λ s c, (step s c).1) s cs.

Definition run (cs : list call) : ObjectsRegistry := run_from constructor cs.

(** The handles returned along a run, oldest first. *)
Fixpoint returned_from (s : ObjectsRegistry) (cs : list call) : list Z :=
  match cs with
  | [] => []
  | c :: cs' =>
      match step s c with
      | (s', Some id) => id :: returned_from s' cs'
      | (s', None) => returned_from s' cs'
      end
  end.

Definition returned (cs : list call) : list Z := returned_from constructor cs.

Definition is_api (c : call) : Prop :=
  match c with
  | Emit _ _ => False
  | _ => True
  end.

(** ** Reference counts and owners *)

(** Number of owner records whose set holds the handle. *)
Definition holders_in (m : gmap string owner) (id : Z) : nat :=
  size (filter (λ ko : string * owner, id ∈ storageSet ko.2) m).

Definition holders (s : ObjectsRegistry) (id : Z) : nat := holders_in (owners s) id.

(** The live reference count of a handle; a handle without an entry has
    none. *)
Definition refcount (s : ObjectsRegistry) (id : Z) : Z :=
  match storage s !! id with
  | Some p => count p
  | None => 0
  end.

(** Whether the record stored under [k] holds [id]. *)
Definition held_by (m : gmap string owner) (k : string) (id : Z) : bool :=
  match m !! k with
  | Some o => bool_decide (id ∈ storageSet o)
  | None => false
  end.

Definition ind (b : bool) : Z := if b then 1 else 0.

(** The handle is held by the record under [k] and by no other record: it
    has exactly one holder. *)
Definition exclusively_held (s : ObjectsRegistry) (k : string) (id : Z) : Prop :=
  held_by (owners s) k id = true ∧ holders s id = 1%nat.

(** The key that [add] and [remove] compute for a WebContents. *)
Definition ownerKeyOf (w : WebContents) : string :=
  pretty (wc_id w) +:+ "-" +:+ pretty (wc_processId w).

(** [add] takes the branch of lines 52-58: a record exists under the key of
    [w] with another context id, and the migration entry of that context id
    names this key as its old owner key. *)
Definition reconciles (s : ObjectsRegistry) (w : WebContents) (ctx : string) : bool :=
  match owners s !! ownerKeyOf w with
  | Some o =>
      bool_decide (contextId o ≠ ctx) &&
      match contexts s !! contextId o with
      | Some c => bool_decide (oldOwnerKey c = ownerKeyOf w)
      | None => false
      end
  | None => false
  end.

(** [remove] passes the check of line 87. *)
Definition remove_accepted (s : ObjectsRegistry) (w : WebContents) (ctx : string) : bool :=
  match owners s !! ownerKeyOf w with
  | Some o => bool_decide (contextId o = ctx)
  | None => false
  end.

(** A call of the public interface in which an accepted [remove] names a
    handle of the caller's own set. *)
Definition releases_own (s : ObjectsRegistry) (c : call) : Prop :=
  match c with
  | Add _ _ _ => True
  | Remove w ctx id =>
      remove_accepted s w ctx = true → held_by (owners s) (ownerKeyOf w) id = true
  | Clear _ _ => True
  | Emit _ _ => False
  end.

Fixpoint releases_own_from (s : ObjectsRegistry) (cs : list call) : Prop :=
  match cs with
  | [] => True
  | c :: cs' => releases_own s c ∧ releases_own_from (step s c).1 cs'
  end.

(** The entry of a handle after one [dereference]. *)
Definition released (e : option pointer) : option pointer :=
  match e with
  | Some p =>
      if bool_decide (count p - 1 = 0) then None
      else Some {| object := object p; count := count p - 1 |}
  | None => None
  end.

(** The call registers the object [o]. *)
Definition registers (o : obj) (c : call) : Prop :=
  match c with
  | Add _ _ o' => o' = o
  | _ => False
  end.

(** Consistency of the handle store with the hidden values and the owner
    sets. Between lines 34 and 70 of [add] the entry of the handle [x] just
    allocated has count 0 and no holder. *)
Record wf_upto (x : option Z) (s : ObjectsRegistry) : Prop := {
  wf_next : 0 ≤ nextId s;
  wf_storage : ∀ id p, storage s !! id = Some p →
    1 ≤ id ≤ nextId s ∧ hidden s !! object p = Some id ∧
    (1 ≤ count p ∨
     (x = Some id ∧ count p = 0 ∧ ∀ k, held_by (owners s) k id = false));
  wf_hidden : ∀ o id, hidden s !! o = Some id →
    ∃ p, storage s !! id = Some p ∧ object p = o;
  wf_owners : ∀ k id, held_by (owners s) k id = true → 1 ≤ id ≤ nextId s
}.

Definition wf : ObjectsRegistry → Prop := wf_upto None.

(** The string is not empty and its first character is not "u", the first
    character of "undefined". *)
Definition starts_otherwise (s : string) : Prop :=
  match s with
  | EmptyString => False
  | String a _ => a ≠ "u"%char
  end.

(** ** Scenario values *)

Definition E1 (pid : Z) : WebContents := {| wc_id := 1; wc_processId := pid |}.
Definition E2 (pid : Z) : WebContents := {| wc_id := 2; wc_processId := pid |}.
Definition E3 (pid : Z) : WebContents := {| wc_id := 3; wc_processId := pid |}.
Definition objX : obj := 7%nat.
Definition objY : obj := 8%nat.

(** Three owners register the same object, then the first one releases the
    handle twice. *)
Definition double_release : list call :=
  [ Add (E1 10) "ctxA" objX; Add (E2 11) "ctxB" objX; Add (E3 12) "ctxC" objX;
    Remove (E1 10) "ctxA" 1; Remove (E1 10) "ctxA" 1 ].

(** Two owners, each releasing what it holds. *)
Definition orderly_release : list call :=
  [ Add (E1 10) "ctxA" objX; Add (E2 11) "ctxB" objX; Add (E2 11) "ctxB" objY;
    Remove (E1 10) "ctxA" 1; Clear "2-11" "ctxB" ].

(** A process swap is announced, and two registrations with further
    context ids arrive from the WebContents while it still answers the old
    process id. *)
Definition swap_announced : list call :=
  [ Add (E1 10) "ctxA" objX; Emit 1 (render_frame_changed 10 20) ].

Definition overwritten_owner : list call :=
  swap_announced ++ [ Add (E1 10) "ctxB" objX; Add (E1 10) "ctxC" objY ].

(** The migration scenario: a registration from endpoint [e] at process
    [P1], the notification of a swap to [P2], and a registration from the
    same endpoint at [P2]. *)
Definition at_process (e pid : Z) : WebContents :=
  {| wc_id := e; wc_processId := pid |}.

Definition migration_scenario (e P1 P2 : Z) (ctxA : string) (x : obj) : list call :=
  [ Add (at_process e P1) ctxA x; Emit e (render_frame_changed P1 P2);
    Add (at_process e P2) ctxA x ].

(** The listener closure number [n], created for [w] under its own key. *)
Definition closure (n : nat) (ev : event_name) (w : WebContents) (ctx : string)
    : listener :=
  {| l_closure := n; l_event := ev; l_emitter := wc_id w;
     l_ownerKey := ownerKeyOf w; l_contextId := ctx;
     l_processId := wc_processId w |}.

(** The states the scenario goes through. *)
Definition scenario_registered (e P1 : Z) (ctxA : string) (x : obj) : ObjectsRegistry :=
  {| nextId := 1; storage := {[1 := {| object := x; count := 1 |}]};
     owners := {[ownerKeyOf (at_process e P1)
                 := {| contextId := ctxA; storageSet := {[1]} |}]};
     contexts := ∅; hidden := {[x := 1]};
     listeners := [closure 0 RenderViewDeleted (at_process e P1) ctxA;
                   closure 1 RenderFrameChanged (at_process e P1) ctxA];
     closures := 2 |}.

Definition scenario_swapped (e P1 P2 : Z) (ctxA : string) (x : obj) : ObjectsRegistry :=
  {| nextId := 1; storage := {[1 := {| object := x; count := 1 |}]};
     owners := {[ownerKeyOf (at_process e P1)
                 := {| contextId := ctxA; storageSet := {[1]} |}]};
     contexts := {[ctxA := {| oldOwnerKey := ownerKeyOf (at_process e P1);
                              newOwnerKey := "undefined-" +:+ pretty P2 |}]};
     hidden := {[x := 1]};
     listeners := [closure 0 RenderViewDeleted (at_process e P1) ctxA];
     closures := 2 |}.

Definition scenario_migrated (e P1 P2 : Z) (ctxA : string) (x : obj) : ObjectsRegistry :=
  {| nextId := 1; storage := {[1 := {| object := x; count := 2 |}]};
     owners := <[ownerKeyOf (at_process e P2)
                 := {| contextId := ctxA; storageSet := {[1]} |}]>
               {[ownerKeyOf (at_process e P1)
                 := {| contextId := ctxA; storageSet := {[1]} |}]};
     contexts := {[ctxA := {| oldOwnerKey := ownerKeyOf (at_process e P1);
                              newOwnerKey := "undefined-" +:+ pretty P2 |}]};
     hidden := {[x := 1]};
     listeners := [closure 0 RenderViewDeleted (at_process e P1) ctxA;
                   closure 2 RenderViewDeleted (at_process e P2) ctxA;
                   closure 3 RenderFrameChanged (at_process e P2) ctxA];
     closures := 4 |}.

(** ** Notions used for the further properties *)


(** The process id that a listener compares with the one it captured:
    [deletedProcessId], or [oldProcessId]. *)
Definition event_process (e : event) : Z :=
  match e with
  | render_view_deleted pid => pid
  | render_frame_changed old _ => old
  end.

(** The listener is called by the emission and its process test passes. *)
Definition concerned (l : listener) (emitter : Z) (e : event) : Prop :=
  l_emitter l = emitter ∧ l_event l = name_of e ∧ l_processId l = event_process e.

(** No owner record is stored under [k] with context id [ctx]. *)
Definition no_record (s : ObjectsRegistry) (k ctx : string) : Prop :=
  ∀ ow, owners s !! k = Some ow → contextId ow ≠ ctx.

(** The handle has no entry, or its only reference is the one of the record
    stored under [k] with context id [ctx]. *)
Definition sole_reference (s : ObjectsRegistry) (k ctx : string) (h : Z) : Prop :=
  get s h = None ∨
  (refcount s h = 1 ∧
   ∃ ow, owners s !! k = Some ow ∧ contextId ow = ctx ∧ h ∈ storageSet ow).

(** Every owner record has a subscribed destruction listener that carries
    its owner key and its context id. *)
Definition guarded (s : ObjectsRegistry) : Prop :=
  ∀ k ow, owners s !! k = Some ow →
    ∃ l, l ∈ listeners s ∧ l_event l = RenderViewDeleted ∧
         l_ownerKey l = k ∧ l_contextId l = contextId ow.

(** Listener closures are told apart by their identity. *)
Definition distinct_closures (ls : list listener) : Prop :=
  ∀ l1 l2, l1 ∈ ls → l2 ∈ ls → l_closure l1 = l_closure l2 → l1 = l2.

(** The invariant: owner records are guarded, and the closures created so
    far have distinct identities below the counter. *)
Definition subscribed (s : ObjectsRegistry) : Prop :=
  guarded s ∧ distinct_closures (listeners s) ∧
  ∀ l, l ∈ listeners s → (l_closure l < closures s)%nat.

(** * Properties *)

(** ** getOwnerKey *)

Lemma getOwnerKey_webContents w :
  getOwnerKey (JsWebContents w) None = Return (ownerKeyOf w).
Proof. reflexivity. Qed.

Lemma getOwnerKey_number n pid :
  pid ≠ 0 →
  getOwnerKey (JsNumber n) (Some pid) = Return ("undefined-" +:+ pretty pid).
Proof.
  intros Hpid. unfold getOwnerKey; simpl.
  rewrite bool_decide_eq_false_2 by done. reflexivity.
Qed.

Lemma getOwnerKey_number_0 n : getOwnerKey (JsNumber n) (Some 0) = Throw.
Proof. reflexivity. Qed.

(** ** Counting the holders of a handle *)

Lemma holders_in_empty id : holders_in ∅ id = 0%nat.
Proof. unfold holders_in. by rewrite map_filter_empty, map_size_empty. Qed.

Lemma holders_in_delete m k id :
  Z.of_nat (holders_in (delete k m) id)
  = Z.of_nat (holders_in m id) - ind (held_by m k id).
Proof.
  unfold holders_in, held_by, ind. rewrite map_filter_delete, map_size_delete.
  destruct (m !! k) as [o|] eqn:Hk.
  - case_bool_decide as Hin.
    + assert (filter (λ ko : string * owner, id ∈ storageSet ko.2) m !! k = Some o)
        as Hf by (by apply map_lookup_filter_Some_2).
      rewrite Hf.
      assert (size (filter (λ ko : string * owner, id ∈ storageSet ko.2) m) ≠ 0%nat)
        by (apply map_size_ne_0_lookup; eauto).
      lia.
    + rewrite map_lookup_filter_None_2; [simpl; lia|].
      right. intros o' Ho'. simpl. congruence.
  - rewrite map_lookup_filter_None_2; [simpl; lia|]. by left.
Qed.

Lemma holders_in_insert m k o id :
  Z.of_nat (holders_in (<[k := o]> m) id)
  = Z.of_nat (holders_in m id) - ind (held_by m k id)
    + ind (bool_decide (id ∈ storageSet o)).
Proof.
  rewrite <- holders_in_delete, <- (insert_delete_eq m).
  unfold holders_in, ind. rewrite map_filter_insert. simpl.
  case_decide as Hin.
  - rewrite bool_decide_eq_true_2 by done.
    rewrite map_size_insert_None; [lia|].
    apply map_lookup_filter_None. left. apply lookup_delete_eq.
  - rewrite bool_decide_eq_false_2 by done.
    rewrite delete_delete_eq. lia.
Qed.

Lemma holders_in_held m k id :
  held_by m k id = true → (1 ≤ holders_in m id)%nat.
Proof.
  intros H. pose proof (holders_in_delete m k id) as Hd.
  rewrite H in Hd. simpl in Hd. lia.
Qed.

Lemma held_by_true m k id :
  held_by m k id = true ↔ ∃ ow, m !! k = Some ow ∧ id ∈ storageSet ow.
Proof.
  unfold held_by. destruct (m !! k) as [ow|].
  - rewrite bool_decide_eq_true. naive_solver.
  - naive_solver.
Qed.

Lemma held_by_insert m k ow k' id :
  held_by (<[k := ow]> m) k' id
  = if decide (k' = k) then bool_decide (id ∈ storageSet ow) else held_by m k' id.
Proof.
  unfold held_by. case_decide as Heq.
  - subst. by rewrite lookup_insert_eq.
  - by rewrite lookup_insert_ne.
Qed.

Lemma held_by_delete m k k' id :
  held_by (delete k m) k' id = if decide (k' = k) then false else held_by m k' id.
Proof.
  unfold held_by. case_decide as Heq.
  - subst. by rewrite lookup_delete_eq.
  - by rewrite lookup_delete_ne.
Qed.

(** [exclusively_held] says that no other record holds the handle. *)
Lemma exclusively_held_others s k id :
  exclusively_held s k id ↔
  held_by (owners s) k id = true ∧ ∀ k', k' ≠ k → held_by (owners s) k' id = false.
Proof.
  unfold exclusively_held, holders.
  pose proof (holders_in_delete (owners s) k id) as Hd.
  split; intros [Hk H]; (split; [done|]); rewrite Hk in Hd; simpl in Hd.
  - intros k' Hne. destruct (held_by (owners s) k' id) eqn:Hk'; [|done].
    assert (held_by (delete k (owners s)) k' id = true) as Hdel
      by (rewrite held_by_delete; by case_decide).
    apply holders_in_held in Hdel. lia.
  - enough (holders_in (delete k (owners s)) id = 0%nat) by lia.
    unfold holders_in. apply map_size_empty_iff, map_empty_filter_2.
    intros k' o' Hk' Hin. simpl in Hin.
    apply lookup_delete_Some in Hk' as [Hne Hk'].
    specialize (H k' ltac:(done)). unfold held_by in H.
    rewrite Hk' in H. by apply bool_decide_eq_false in H.
Qed.

(** ** Well-formedness is insensitive to the tables it does not read *)

Lemma wf_upto_frame x s s' :
  nextId s' = nextId s → storage s' = storage s → hidden s' = hidden s →
  (∀ k id, held_by (owners s') k id = true → ∃ k', held_by (owners s) k' id = true) →
  wf_upto x s → wf_upto x s'.
Proof.
  intros Hn Hs Hh Ho Hwf. split; rewrite ?Hn, ?Hs, ?Hh.
  - apply Hwf.
  - intros id p Hp. destruct (wf_storage _ _ Hwf _ _ Hp) as (? & ? & Hc).
    split_and!; [lia..|done|]. destruct Hc as [?|(? & ? & Hnone)]; [by left|right].
    split_and!; [done..|]. intros k. destruct (held_by (owners s') k id) eqn:Hk; [|done].
    destruct (Ho _ _ Hk) as [k' Hk']. by rewrite Hnone in Hk'.
  - apply Hwf.
  - intros k id Hk. destruct (Ho _ _ Hk) as [k' Hk']. by eapply wf_owners.
Qed.

(** ** dereference *)

Lemma dereference_absent s id :
  storage s !! id = None → dereference s id = s.
Proof. intros H. unfold dereference. by rewrite H. Qed.

Lemma dereference_frame s id :
  nextId (dereference s id) = nextId s ∧
  owners (dereference s id) = owners s ∧
  contexts (dereference s id) = contexts s ∧
  listeners (dereference s id) = listeners s ∧
  closures (dereference s id) = closures s.
Proof.
  unfold dereference. destruct (storage s !! id) as [p|]; [|done].
  by case_bool_decide.
Qed.

Lemma dereference_storage s id id' :
  storage (dereference s id) !! id'
  = if decide (id' = id) then released (storage s !! id) else storage s !! id'.
Proof.
  unfold dereference, released.
  destruct (storage s !! id) as [p|] eqn:Hp.
  - case_bool_decide; simpl; case_decide; subst;
      by rewrite ?lookup_delete_eq, ?lookup_delete_ne,
                 ?lookup_insert_eq, ?lookup_insert_ne by done.
  - case_decide; by subst.
Qed.

Lemma wf_count s id p : wf s → storage s !! id = Some p → 1 ≤ count p.
Proof.
  intros Hwf Hp. destruct (wf_storage _ _ Hwf _ _ Hp) as (_ & _ & [H|(H & _)]);
    [done|discriminate].
Qed.

Lemma dereference_wf s id : wf s → wf (dereference s id).
Proof.
  intros Hwf. unfold dereference.
  destruct (storage s !! id) as [p|] eqn:Hp; [|done].
  pose proof (wf_count _ _ _ Hwf Hp) as Hc.
  destruct (wf_storage _ _ Hwf _ _ Hp) as (Hid & Hhid & _).
  case_bool_decide as Hz; split; simpl.
  - apply Hwf.
  - intros id' p' Hp'. apply lookup_delete_Some in Hp' as [Hne Hp'].
    destruct (wf_storage _ _ Hwf _ _ Hp') as (? & Hh' & ?).
    pose proof (wf_count _ _ _ Hwf Hp').
    split_and!; [lia..| |by left].
    rewrite lookup_delete_ne; [done|]. intros Heq. rewrite Heq in Hhid. congruence.
  - intros o id0 Ho. apply lookup_delete_Some in Ho as [Hne Ho].
    destruct (wf_hidden _ _ Hwf _ _ Ho) as (p0 & Hp0 & Hobj).
    exists p0. split; [|done]. rewrite lookup_delete_ne; [done|].
    intros <-. congruence.
  - apply Hwf.
  - apply Hwf.
  - intros id' p' Hp'. destruct (decide (id' = id)) as [->|Hne].
    + rewrite lookup_insert_eq in Hp'. injection Hp' as <-. simpl.
      split_and!; [lia..|done|left; lia].
    + rewrite lookup_insert_ne in Hp' by done.
      destruct (wf_storage _ _ Hwf _ _ Hp') as (? & ? & ?).
      pose proof (wf_count _ _ _ Hwf Hp'). split_and!; [lia..|done|by left].
  - intros o id0 Ho. destruct (wf_hidden _ _ Hwf _ _ Ho) as (p0 & Hp0 & Hobj).
    destruct (decide (id0 = id)) as [->|Hne].
    + rewrite lookup_insert_eq. eexists; split; [done|]. simpl. congruence.
    + rewrite lookup_insert_ne by done. eauto.
  - apply Hwf.
Qed.

Lemma dereference_refcount s id id' :
  wf s →
  refcount (dereference s id) id'
  = if decide (id' = id) then Z.max 0 (refcount s id - 1) else refcount s id'.
Proof.
  intros Hwf. unfold refcount. rewrite dereference_storage.
  case_decide as Heq; [|done]. unfold released.
  destruct (storage s !! id) as [p|] eqn:Hp; [|done].
  pose proof (wf_count _ _ _ Hwf Hp).
  case_bool_decide; simpl; lia.
Qed.

(** Dereferencing the handles of a list, as the loop of [clear] does. *)
Lemma dereference_all_frame l : ∀ s,
  nextId (foldl dereference s l) = nextId s ∧
  owners (foldl dereference s l) = owners s ∧
  contexts (foldl dereference s l) = contexts s ∧
  listeners (foldl dereference s l) = listeners s ∧
  closures (foldl dereference s l) = closures s.
Proof.
  induction l as [|a l IH]; intros s; simpl; [done|].
  destruct (IH (dereference s a)) as (-> & -> & -> & -> & ->).
  apply dereference_frame.
Qed.

Lemma dereference_all_wf l : ∀ s, wf s → wf (foldl dereference s l).
Proof.
  induction l as [|a l IH]; intros s Hwf; simpl; [done|].
  by apply IH, dereference_wf.
Qed.

Lemma dereference_all_other l id : ∀ s,
  id ∉ l → storage (foldl dereference s l) !! id = storage s !! id.
Proof.
  induction l as [|a l IH]; intros s Hnin; simpl; [done|].
  apply not_elem_of_cons in Hnin as [Hne Hnin].
  rewrite IH by done. rewrite dereference_storage. by case_decide.
Qed.

Lemma dereference_all_once l id : ∀ s,
  NoDup l → id ∈ l →
  storage (foldl dereference s l) !! id = released (storage s !! id).
Proof.
  induction l as [|a l IH]; intros s Hnd Hin; simpl.
  - by apply elem_of_nil in Hin.
  - apply NoDup_cons in Hnd as [Ha Hnd].
    apply elem_of_cons in Hin as [->|Hin].
    + rewrite dereference_all_other by done.
      rewrite dereference_storage. by case_decide.
    + rewrite IH by done. rewrite dereference_storage.
      case_decide as Heq; [|done]. subst. done.
Qed.

(** Two dereferences commute, so the loop of [clear] leaves the same state
    whatever the order in which the set is enumerated. *)
Lemma dereference_comm s a b :
  dereference (dereference s a) b = dereference (dereference s b) a.
Proof.
  destruct (decide (a = b)) as [->|Hne]; [done|].
  unfold dereference.
  destruct (storage s !! a) as [pa|] eqn:Ha; destruct (storage s !! b) as [pb|] eqn:Hb;
    repeat (case_bool_decide; simpl);
    rewrite ?lookup_delete_ne, ?lookup_insert_ne, ?Ha, ?Hb by done;
    repeat (case_bool_decide; simpl); try done; try lia;
    rewrite ?lookup_delete_ne, ?lookup_insert_ne, ?Ha, ?Hb by done;
    repeat (case_bool_decide; simpl); try done; try lia;
    unfold set_storage, set_hidden; simpl; f_equal;
    first [ apply delete_delete
          | by apply insert_insert_ne
          | by apply delete_insert_ne
          | symmetry; by apply delete_insert_ne ].
Qed.

Lemma dereference_all_permutation l1 l2 :
  l1 ≡ₚ l2 → ∀ s, foldl dereference s l1 = foldl dereference s l2.
Proof.
  induction 1 as [|a l1 l2 _ IH|a b l|l1 l2 l3 _ IH1 _ IH2]; intros s; simpl.
  - done.
  - apply IH.
  - by rewrite dereference_comm.
  - by rewrite IH1.
Qed.

Lemma dereference_all_refcount l id : ∀ s,
  wf s → NoDup l →
  refcount (foldl dereference s l) id
  = Z.max 0 (refcount s id - ind (bool_decide (id ∈ l))).
Proof.
  intros s Hwf Hnd. unfold refcount, ind. case_bool_decide as Hin.
  - rewrite dereference_all_once by done. unfold released.
    destruct (storage s !! id) as [p|] eqn:Hp; [|done].
    pose proof (wf_count _ _ _ Hwf Hp). case_bool_decide; simpl; lia.
  - rewrite dereference_all_other by done.
    destruct (storage s !! id) as [p|] eqn:Hp; [|done].
    pose proof (wf_count _ _ _ Hwf Hp). lia.
Qed.

(** ** clear *)

Lemma clear_unknown s k ctx : owners s !! k = None → clear s k ctx = s.
Proof. intros H. unfold clear. by rewrite H. Qed.

Lemma clear_mismatch s k ctx ow :
  owners s !! k = Some ow → contextId ow ≠ ctx → clear s k ctx = s.
Proof. intros H Hne. unfold clear. rewrite H. by rewrite bool_decide_eq_true_2. Qed.

Lemma clear_match s k ow :
  owners s !! k = Some ow →
  clear s k (contextId ow)
  = set_contexts (delete (contextId ow))
      (set_owners (delete k) (foldl dereference s (elements (storageSet ow)))).
Proof. intros H. unfold clear. rewrite H. by rewrite bool_decide_eq_false_2 by naive_solver. Qed.

Lemma clear_wf s k ctx : wf s → wf (clear s k ctx).
Proof.
  intros Hwf. unfold clear. destruct (owners s !! k) as [ow|] eqn:Hk; [|done].
  case_bool_decide; [done|].
  pose proof (dereference_all_frame (elements (storageSet ow)) s) as (Hn & Ho & _).
  eapply wf_upto_frame; [..|by apply (dereference_all_wf (elements (storageSet ow)))];
    simpl; try done.
  intros k' id. rewrite Ho, held_by_delete. case_decide; [done|eauto].
Qed.

(** What [clear] does to the count and to the holders of every handle. *)
Lemma clear_delta s k ctx id :
  wf s →
  ∃ d : bool,
    refcount (clear s k ctx) id = Z.max 0 (refcount s id - ind d) ∧
    Z.of_nat (holders (clear s k ctx) id) = Z.of_nat (holders s id) - ind d.
Proof.
  intros Hwf. unfold clear. destruct (owners s !! k) as [ow|] eqn:Hk.
  - case_bool_decide.
    + exists false. simpl. unfold refcount.
      destruct (storage s !! id) as [p|] eqn:Hp; [|lia].
      pose proof (wf_count _ _ _ Hwf Hp). lia.
    + exists (bool_decide (id ∈ storageSet ow)).
      pose proof (dereference_all_frame (elements (storageSet ow)) s) as (_ & Ho & _).
      split.
      * change (refcount (foldl dereference s (elements (storageSet ow))) id
                = Z.max 0 (refcount s id - ind (bool_decide (id ∈ storageSet ow)))).
        rewrite dereference_all_refcount by (done || apply NoDup_elements).
        do 3 f_equal. apply bool_decide_ext, elem_of_elements.
      * unfold holders. simpl. rewrite Ho, holders_in_delete.
        unfold held_by. by rewrite Hk.
  - exists false. simpl. unfold refcount.
    destruct (storage s !! id) as [p|] eqn:Hp; [|lia].
    pose proof (wf_count _ _ _ Hwf Hp). lia.
Qed.

(** ** remove *)

Lemma remove_rejected s w ctx id :
  remove_accepted s w ctx = false → remove s w ctx id = s.
Proof.
  unfold remove_accepted, remove. rewrite getOwnerKey_webContents.
  destruct (owners s !! ownerKeyOf w) as [ow|]; [|done].
  intros H. by rewrite H.
Qed.

Lemma remove_accepted_eq s w ctx id ow :
  owners s !! ownerKeyOf w = Some ow → contextId ow = ctx →
  remove s w ctx id
  = dereference
      (set_owners <[ownerKeyOf w := {| contextId := contextId ow;
                                       storageSet := storageSet ow ∖ {[id]} |}]> s) id.
Proof.
  intros Hk Hc. unfold remove. rewrite getOwnerKey_webContents, Hk.
  by rewrite bool_decide_eq_true_2.
Qed.

Lemma remove_wf s w ctx id : wf s → wf (remove s w ctx id).
Proof.
  intros Hwf. unfold remove. rewrite getOwnerKey_webContents.
  destruct (owners s !! ownerKeyOf w) as [ow|] eqn:Hk; [|done].
  case_bool_decide; [|done]. apply dereference_wf.
  eapply wf_upto_frame; [..|exact Hwf]; simpl; try done.
  intros k' id'. rewrite held_by_insert. case_decide as Heq.
  - subst k'. simpl. intros Hin%bool_decide_eq_true.
    exists (ownerKeyOf w). apply held_by_true. exists ow. split; [done|set_solver].
  - eauto.
Qed.

(** What [remove] does to the count and to the holders of every handle: the
    count drops by [e], the holders by [d], and [d ≤ e]. *)
Lemma remove_delta s w ctx id id' :
  wf s →
  ∃ d e : bool,
    refcount (remove s w ctx id) id' = Z.max 0 (refcount s id' - ind e) ∧
    Z.of_nat (holders (remove s w ctx id) id') = Z.of_nat (holders s id') - ind d ∧
    ind d ≤ ind e ∧
    ((remove_accepted s w ctx = true → held_by (owners s) (ownerKeyOf w) id = true) →
     d = e).
Proof.
  intros Hwf.
  assert (refcount s id' = Z.max 0 (refcount s id' - ind false)) as Hsame.
  { unfold refcount. destruct (storage s !! id') as [p|] eqn:Hp; simpl; [|lia].
    pose proof (wf_count _ _ _ Hwf Hp). lia. }
  destruct (remove_accepted s w ctx) eqn:Hacc.
  - unfold remove_accepted in Hacc.
    destruct (owners s !! ownerKeyOf w) as [ow|] eqn:Hk; [|done].
    apply bool_decide_eq_true in Hacc.
    rewrite (remove_accepted_eq _ _ _ _ _ Hk Hacc).
    set (s1 := set_owners _ s).
    assert (wf s1) as Hwf1.
    { eapply wf_upto_frame; [..|exact Hwf]; simpl; try done.
      intros k' i. rewrite held_by_insert. case_decide as Heq; [|eauto].
      subst k'. simpl. intros Hin%bool_decide_eq_true.
      exists (ownerKeyOf w). apply held_by_true. exists ow. split; [done|set_solver]. }
    exists (bool_decide (id' = id) && held_by (owners s) (ownerKeyOf w) id),
           (bool_decide (id' = id)).
    split_and!.
    + rewrite dereference_refcount by done. unfold ind.
      case_decide as Heq; case_bool_decide; try done. by subst.
    + unfold holders. destruct (dereference_frame s1 id) as (_ & -> & _).
      simpl. rewrite holders_in_insert. simpl. unfold held_by. rewrite Hk.
      unfold ind. repeat case_bool_decide; simpl; try lia; set_solver.
    + unfold ind. case_bool_decide; simpl; [|lia]. destruct (held_by _ _ _); lia.
    + intros Hown. rewrite Hown by done. by rewrite andb_true_r.
  - rewrite remove_rejected by done. exists false, false. split_and!; [done|simpl; lia|done..].
Qed.

(** ** saveToStorage *)

Lemma wf_weaken x s : wf s → wf_upto x s.
Proof.
  intros Hwf. split; try apply Hwf.
  intros id p Hp. destruct (wf_storage _ _ Hwf _ _ Hp) as (? & ? & _).
  pose proof (wf_count _ _ _ Hwf Hp). auto.
Qed.

Lemma wf_hidden_nonzero s o id : wf s → hidden s !! o = Some id → id ≠ 0.
Proof.
  intros Hwf Ho. destruct (wf_hidden _ _ Hwf _ _ Ho) as (p & Hp & _).
  destruct (wf_storage _ _ Hwf _ _ Hp) as (? & _). lia.
Qed.

Lemma saveToStorage_cases s o :
  wf s →
  (∃ id, hidden s !! o = Some id ∧ saveToStorage s o = (s, id)) ∨
  (hidden s !! o = None ∧ saveToStorage s o = allocate s o).
Proof.
  intros Hwf. unfold saveToStorage. destruct (hidden s !! o) as [id|] eqn:Ho.
  - left. exists id. split; [done|].
    by rewrite bool_decide_eq_false_2 by by eapply wf_hidden_nonzero.
  - by right.
Qed.

Lemma allocate_wf s o :
  wf s → hidden s !! o = None → wf_upto (Some (nextId s + 1)) (allocate s o).1.
Proof.
  intros Hwf Ho. pose proof (wf_next _ _ Hwf). split; simpl.
  - lia.
  - intros id p Hp. destruct (decide (id = nextId s + 1)) as [->|Hne].
    + rewrite lookup_insert_eq in Hp. injection Hp as <-. simpl.
      rewrite lookup_insert_eq. split_and!; [lia..|done|right].
      split_and!; [done..|]. intros k.
      destruct (held_by (owners s) k (nextId s + 1)) eqn:Hk; [|done].
      apply (wf_owners _ _ Hwf) in Hk. lia.
    + rewrite lookup_insert_ne in Hp by done.
      destruct (wf_storage _ _ Hwf _ _ Hp) as (? & Hh & _).
      pose proof (wf_count _ _ _ Hwf Hp).
      split_and!; [lia..| |by left].
      rewrite lookup_insert_ne; [done|]. intros Heq. congruence.
  - intros o' id Ho'. destruct (decide (o' = o)) as [->|Hne].
    + rewrite lookup_insert_eq in Ho'. injection Ho' as <-.
      rewrite lookup_insert_eq. eauto.
    + rewrite lookup_insert_ne in Ho' by done.
      destruct (wf_hidden _ _ Hwf _ _ Ho') as (p & Hp & Hobj).
      destruct (wf_storage _ _ Hwf _ _ Hp) as (? & _).
      rewrite lookup_insert_ne by lia. eauto.
  - intros k id Hk. apply (wf_owners _ _ Hwf) in Hk. lia.
Qed.

Lemma saveToStorage_spec s o s1 id :
  wf s → saveToStorage s o = (s1, id) →
  wf_upto (Some id) s1 ∧ hidden s1 !! o = Some id ∧ is_Some (storage s1 !! id) ∧
  owners s1 = owners s ∧ contexts s1 = contexts s ∧
  nextId s ≤ nextId s1 ∧ 1 ≤ id ≤ nextId s1 ∧
  (hidden s !! o = None → id = nextId s + 1 ∧ nextId s1 = nextId s + 1) ∧
  (∀ id', refcount s1 id' = refcount s id').
Proof.
  intros Hwf Hsave.
  destruct (saveToStorage_cases s o Hwf) as [(id0 & Ho & Heq)|(Ho & Heq)];
    rewrite Heq in Hsave.
  - injection Hsave as <- <-.
    destruct (wf_hidden _ _ Hwf _ _ Ho) as (p & Hp & _).
    destruct (wf_storage _ _ Hwf _ _ Hp) as (? & _).
    split_and!; try done; [by apply wf_weaken|lia..|congruence].
  - pose proof (allocate_wf s o Hwf Ho) as Hwf1.
    unfold allocate in *. injection Hsave as <- <-. simpl in *.
    pose proof (wf_next _ _ Hwf).
    split_and!; try done; try lia.
    + by rewrite lookup_insert_eq.
    + rewrite lookup_insert_eq. eauto.
    + intros id'. unfold refcount. simpl.
      destruct (decide (id' = nextId s + 1)) as [->|Hne].
      * rewrite lookup_insert_eq. simpl.
        destruct (storage s !! (nextId s + 1)) as [p|] eqn:Hp; [|done].
        destruct (wf_storage _ _ Hwf _ _ Hp) as (? & _). lia.
      * by rewrite lookup_insert_ne.
Qed.

(** ** Lines 37-66 of add *)

Lemma resolveOwner_spec x s w k ctx s2 key :
  resolveOwner s w k ctx = (s2, key) → wf_upto x s →
  wf_upto x s2 ∧ nextId s2 = nextId s ∧ storage s2 = storage s ∧
  hidden s2 = hidden s ∧
  ∃ ow, owners s2 !! key = Some ow ∧ contextId ow = ctx.
Proof.
  intros Hres Hwf. unfold resolveOwner in Hres.
  destruct (owners s !! k) as [o|] eqn:Hk.
  - case_bool_decide as Hctx.
    + assert (∀ s', s' = set_owners <[k := {| contextId := ctx;
                                             storageSet := storageSet o |}]> s →
                wf_upto x (registerBoth w k ctx s')) as Hreload.
      { intros s' ->. eapply wf_upto_frame; [..|exact Hwf]; simpl; try done.
        intros k' id. rewrite held_by_insert. case_decide as Heq; [|eauto].
        subst k'. simpl. intros Hin%bool_decide_eq_true.
        exists k. apply held_by_true. eauto. }
      destruct (contexts s !! contextId o) as [c|] eqn:Hc.
      * case_bool_decide as Hold.
        -- injection Hres as <- <-. split_and!; try done.
           ++ eapply wf_upto_frame; [..|exact Hwf]; simpl; try done.
              intros k' id. rewrite held_by_insert. case_decide as Heq; [|eauto].
              simpl. intros Hin%bool_decide_eq_true. set_solver.
           ++ simpl. rewrite lookup_insert_eq. eauto.
        -- injection Hres as <- <-. split_and!; try done; [by apply Hreload|].
           simpl. rewrite lookup_insert_eq. eauto.
      * injection Hres as <- <-. split_and!; try done; [by apply Hreload|].
        simpl. rewrite lookup_insert_eq. eauto.
    + injection Hres as <- <-. split_and!; try done.
      exists o. split; [done|]. by destruct (decide (contextId o = ctx)).
  - injection Hres as <- <-. split_and!; try done.
    + eapply wf_upto_frame; [..|exact Hwf]; simpl; try done.
      intros k' id. rewrite held_by_insert. case_decide as Heq; [|eauto].
      simpl. intros Hin%bool_decide_eq_true. set_solver.
    + simpl. rewrite lookup_insert_eq. eauto.
Qed.

(** Outside the branch of lines 52-58, the owner stays under the key of the
    WebContents and no set changes. *)
Lemma resolveOwner_plain s w ctx s2 key :
  reconciles s w ctx = false →
  resolveOwner s w (ownerKeyOf w) ctx = (s2, key) →
  key = ownerKeyOf w ∧ contexts s2 = contexts s ∧
  (∀ k id, held_by (owners s2) k id = held_by (owners s) k id) ∧
  (∀ id, holders s2 id = holders s id).
Proof.
  intros Hrec Hres. unfold resolveOwner in Hres. unfold reconciles in Hrec.
  destruct (owners s !! ownerKeyOf w) as [o|] eqn:Hk.
  - case_bool_decide as Hctx.
    + assert ((s2, key) =
        (registerBoth w (ownerKeyOf w) ctx
           (set_owners <[ownerKeyOf w := {| contextId := ctx;
                                            storageSet := storageSet o |}]> s),
         ownerKeyOf w)) as Heq.
      { simpl in Hrec. destruct (contexts s !! contextId o) as [c|]; [|done].
        by rewrite Hrec in Hres. }
      injection Heq as -> ->. split_and!; try done.
      * intros k id. simpl. rewrite held_by_insert. case_decide as Heq; [|done].
        subst k. unfold held_by. by rewrite Hk.
      * intros id. unfold holders. simpl. apply Nat2Z.inj.
        rewrite holders_in_insert. unfold held_by. rewrite Hk. simpl. lia.
    + by injection Hres as <- <-.
  - injection Hres as <- <-. split_and!; try done.
    + intros k id. simpl. rewrite held_by_insert. case_decide as Heq.
      * subst k. unfold held_by. rewrite Hk. simpl.
        apply bool_decide_eq_false. set_solver.
      * done.
    + intros id. unfold holders. simpl. apply Nat2Z.inj.
      rewrite holders_in_insert. unfold held_by. rewrite Hk. simpl.
      rewrite bool_decide_eq_false_2 by set_solver. simpl. lia.
Qed.

(** ** Lines 67-72 of add *)

Lemma reference_spec s key id ow :
  wf_upto (Some id) s → owners s !! key = Some ow → is_Some (storage s !! id) →
  ∃ s3, reference s key id = (s3, Return id) ∧ wf s3 ∧
    nextId s3 = nextId s ∧ hidden s3 = hidden s ∧ contexts s3 = contexts s ∧
    owners s3 !! key = Some {| contextId := contextId ow;
                              storageSet := {[id]} ∪ storageSet ow |} ∧
    (∀ k, k ≠ key → owners s3 !! k = owners s !! k) ∧
    (id ∈ storageSet ow → s3 = s) ∧
    ∀ id', let d := bool_decide (id' = id) && negb (held_by (owners s) key id) in
      refcount s3 id' = refcount s id' + ind d ∧
      Z.of_nat (holders s3 id') = Z.of_nat (holders s id') + ind d.
Proof.
  intros Hwf Hk [p Hp]. unfold reference. rewrite Hk.
  destruct (wf_storage _ _ Hwf _ _ Hp) as (Hid & Hhid & Hcount).
  assert (held_by (owners s) key id = bool_decide (id ∈ storageSet ow)) as Hheld
    by (unfold held_by; by rewrite Hk).
  case_bool_decide as Hin.
  - exists s. split_and!; try done.
    + split; try apply Hwf. intros id' p' Hp'.
      destruct (wf_storage _ _ Hwf _ _ Hp') as (? & ? & [?|(Heq & _ & Hnone)]);
        split_and!; try done; try lia; try (by left).
      injection Heq as <-. by rewrite Hnone in Hheld.
    + rewrite Hk. destruct ow as [c st]. simpl in *. f_equal. f_equal. set_solver.
    + intros id'. rewrite Hheld, andb_false_r. simpl. lia.
  - simpl. rewrite Hp. eexists. split; [done|]. split_and!; simpl; try done.
    + split; simpl; try apply Hwf.
      * intros id' p' Hp'. destruct (decide (id' = id)) as [->|Hne].
        -- rewrite lookup_insert_eq in Hp'. injection Hp' as <-. simpl.
           split_and!; [lia..|done|left].
           destruct Hcount as [?|(_ & ? & _)]; lia.
        -- rewrite lookup_insert_ne in Hp' by done.
           destruct (wf_storage _ _ Hwf _ _ Hp') as (? & ? & [?|(Heq & _)]);
             [|congruence]. split_and!; [lia..|done|by left].
      * intros o i Ho. destruct (wf_hidden _ _ Hwf _ _ Ho) as (p0 & Hp0 & Hobj).
        destruct (decide (i = id)) as [->|Hne].
        -- rewrite lookup_insert_eq. eexists; split; [done|]. simpl. congruence.
        -- rewrite lookup_insert_ne by done. eauto.
      * intros k i. rewrite held_by_insert. case_decide as Heq.
        -- simpl. intros Hi%bool_decide_eq_true.
           apply elem_of_union in Hi as [Hi%elem_of_singleton|Hi]; [by subst|].
           apply (wf_owners _ _ Hwf key). apply held_by_true. eauto.
        -- apply Hwf.
    + by rewrite lookup_insert_eq.
    + intros k Hne. by rewrite lookup_insert_ne.
    + intros id'. rewrite Hheld. simpl. rewrite andb_true_r. split.
      * unfold refcount. simpl. unfold ind. case_bool_decide as Heq.
        -- subst. by rewrite lookup_insert_eq, Hp.
        -- rewrite lookup_insert_ne by done. lia.
      * unfold holders. simpl. rewrite holders_in_insert.
        unfold held_by. rewrite Hk. simpl.
        unfold ind. repeat case_bool_decide; simpl; try lia; set_solver.
Qed.

(** ** add *)

(** In a consistent state [add] returns a handle, whichever branch it
    takes, and leaves a consistent state. *)
Lemma add_returns s w ctx o :
  wf s →
  ∃ s' id, add s w ctx o = (s', Return id) ∧ wf s' ∧
    hidden s' !! o = Some id ∧ id = (saveToStorage s o).2 ∧
    1 ≤ id ≤ nextId s' ∧ nextId s ≤ nextId s' ∧
    (hidden s !! o = None → id = nextId s + 1).
Proof.
  intros Hwf. unfold add.
  destruct (saveToStorage s o) as [s1 id] eqn:Hsave.
  destruct (saveToStorage_spec _ _ _ _ Hwf Hsave)
    as (Hwf1 & Hh1 & Hst1 & Ho1 & Hc1 & Hn1 & Hid & Hfresh & _).
  rewrite getOwnerKey_webContents.
  destruct (resolveOwner s1 w (ownerKeyOf w) ctx) as [s2 key] eqn:Hres.
  destruct (resolveOwner_spec _ _ _ _ _ _ _ Hres Hwf1)
    as (Hwf2 & Hn2 & Hst2 & Hh2 & ow & Hkey & Hctx).
  rewrite <- Hst2 in Hst1.
  destruct (reference_spec _ _ _ _ Hwf2 Hkey Hst1)
    as (s3 & -> & Hwf3 & Hn3 & Hh3 & _).
  exists s3, id. simpl. rewrite Hh3, Hh2, Hn3, Hn2.
  split_and!; try done; try lia. intros Hnone. by apply Hfresh.
Qed.

(** Outside the branch of lines 52-58: the count and the holders of every
    handle grow together, and the caller's record holds the handle under
    the given context id. *)
Lemma add_plain s w ctx o :
  wf s → reconciles s w ctx = false →
  ∃ s' id, add s w ctx o = (s', Return id) ∧ wf s' ∧
    hidden s' !! o = Some id ∧ contexts s' = contexts s ∧
    (∃ ow, owners s' !! ownerKeyOf w = Some ow ∧ contextId ow = ctx ∧
           id ∈ storageSet ow) ∧
    ∀ id', ∃ d : bool,
      refcount s' id' = refcount s id' + ind d ∧
      Z.of_nat (holders s' id') = Z.of_nat (holders s id') + ind d.
Proof.
  intros Hwf Hrec. unfold add.
  destruct (saveToStorage s o) as [s1 id] eqn:Hsave.
  destruct (saveToStorage_spec _ _ _ _ Hwf Hsave)
    as (Hwf1 & Hh1 & Hst1 & Ho1 & Hc1 & Hn1 & Hid & Hfresh & Hrc1).
  rewrite getOwnerKey_webContents.
  destruct (resolveOwner s1 w (ownerKeyOf w) ctx) as [s2 key] eqn:Hres.
  destruct (resolveOwner_spec _ _ _ _ _ _ _ Hres Hwf1)
    as (Hwf2 & Hn2 & Hst2 & Hh2 & ow & Hkey & Hctx).
  assert (reconciles s1 w ctx = false) as Hrec1
    by (unfold reconciles; by rewrite Ho1, Hc1).
  destruct (resolveOwner_plain _ _ _ _ _ Hrec1 Hres) as (-> & Hc2 & Hheld2 & Hhold2).
  rewrite <- Hst2 in Hst1.
  destruct (reference_spec _ _ _ _ Hwf2 Hkey Hst1)
    as (s3 & -> & Hwf3 & Hn3 & Hh3 & Hc3 & Hk3 & _ & _ & Hdelta).
  exists s3, id. split_and!; try done.
  - by rewrite Hh3, Hh2.
  - by rewrite Hc3, Hc2.
  - eexists. split; [done|]. simpl. split; [done|set_solver].
  - intros id'. destruct (Hdelta id') as [Hr Hh]. eexists. split.
    + rewrite Hr, <- Hrc1. unfold refcount. by rewrite Hst2.
    + rewrite Hh, Hhold2. unfold holders. by rewrite Ho1.
Qed.

(** ** Events and runs keep the store consistent *)

Lemma constructor_wf : wf constructor.
Proof.
  split; simpl; done.
Qed.

Lemma removeListener_wf l s : wf s → wf (removeListener l s).
Proof. intros Hwf. eapply wf_upto_frame; [..|exact Hwf]; simpl; eauto. Qed.

Lemma call_listener_wf l e s : wf s → wf (call_listener l e s).1.
Proof.
  intros Hwf. unfold call_listener.
  destruct (l_event l), e; simpl; try done.
  - unfold deleteListener. case_bool_decide; [|done].
    by apply clear_wf, removeListener_wf.
  - unfold processChangeListener. case_bool_decide; [|done].
    destruct (owners s !! l_ownerKey l); [|done].
    destruct (getOwnerKey _ _); [|done]. simpl.
    eapply wf_upto_frame; [..|exact Hwf]; simpl; eauto.
Qed.

Lemma call_listeners_wf ls e : ∀ s, wf s → wf (call_listeners ls e s).1.
Proof.
  induction ls as [|l ls IH]; intros s Hwf; simpl; [done|].
  pose proof (call_listener_wf l e s Hwf) as Hl.
  destruct (call_listener l e s) as [s' [[]|]]; simpl in *; [by apply IH|done].
Qed.

Lemma step_wf s c : wf s → wf (step s c).1.
Proof.
  intros Hwf. destruct c as [w ctx o|w ctx id|k ctx|em e]; simpl.
  - destruct (add_returns s w ctx o Hwf) as (s' & id & -> & Hwf' & _). done.
  - by apply remove_wf.
  - by apply clear_wf.
  - by apply call_listeners_wf.
Qed.

Lemma run_from_wf cs : ∀ s, wf s → wf (run_from s cs).
Proof.
  induction cs as [|c cs IH]; intros s Hwf; [done|].
  apply IH, step_wf, Hwf.
Qed.

Lemma run_wf cs : wf (run cs).
Proof. apply run_from_wf, constructor_wf. Qed.

(** ** Runs of add, remove and clear alone *)

Lemma reconciles_no_context s w ctx : contexts s = ∅ → reconciles s w ctx = false.
Proof.
  intros Hc. unfold reconciles. destruct (owners s !! ownerKeyOf w); [|done].
  rewrite Hc, lookup_empty. apply andb_false_r.
Qed.

Lemma remove_contexts s w ctx id : contexts (remove s w ctx id) = contexts s.
Proof.
  unfold remove. rewrite getOwnerKey_webContents.
  destruct (owners s !! ownerKeyOf w); [|done]. case_bool_decide; [|done].
  by destruct (dereference_frame
    (set_owners <[ownerKeyOf w := {| contextId := contextId o;
                                     storageSet := storageSet o ∖ {[id]} |}]> s) id)
    as (_ & _ & -> & _).
Qed.

Lemma clear_contexts_empty s k ctx : contexts s = ∅ → contexts (clear s k ctx) = ∅.
Proof.
  intros Hc. unfold clear. destruct (owners s !! k) as [ow|]; [|done].
  case_bool_decide; [done|]. simpl.
  destruct (dereference_all_frame (elements (storageSet ow)) s) as (_ & _ & -> & _).
  rewrite Hc. apply delete_empty.
Qed.

(** One call of the public interface: the count of a handle never gains on
    the number of its holders, and follows it exactly when a [remove] names
    a handle of the caller's set. *)
Lemma api_step_delta s c id :
  wf s → contexts s = ∅ → is_api c →
  contexts (step s c).1 = ∅ ∧
  (refcount s id ≤ Z.of_nat (holders s id) →
   refcount (step s c).1 id ≤ Z.of_nat (holders (step s c).1 id)) ∧
  (releases_own s c → refcount s id = Z.of_nat (holders s id) →
   refcount (step s c).1 id = Z.of_nat (holders (step s c).1 id)).
Proof.
  intros Hwf Hc Hapi. destruct c as [w ctx o|w ctx h|k ctx|em e]; simpl; [| | |done].
  - destruct (add_plain s w ctx o Hwf (reconciles_no_context _ _ _ Hc))
      as (s' & h & -> & _ & _ & Hc' & _ & Hdelta). simpl.
    destruct (Hdelta id) as (d & -> & ->). split_and!; [congruence|lia..].
  - destruct (remove_delta s w ctx h id Hwf) as (d & e & Hr & Hh & Hde & Hown).
    split_and!.
    + by rewrite remove_contexts.
    + destruct d, e; simpl in *; lia.
    + intros Hrel Heq. rewrite (Hown Hrel) in *. destruct e; simpl in *; lia.
  - destruct (clear_delta s k ctx id Hwf) as (d & Hr & Hh).
    split_and!; [by apply clear_contexts_empty|..].
    + destruct d; simpl in *; lia.
    + destruct d; simpl in *; lia.
Qed.

Lemma api_run_le cs : ∀ s,
  wf s → contexts s = ∅ → Forall is_api cs →
  (∀ id, refcount s id ≤ Z.of_nat (holders s id)) →
  ∀ id, refcount (run_from s cs) id ≤ Z.of_nat (holders (run_from s cs) id).
Proof.
  induction cs as [|c cs IH]; intros s Hwf Hc Hapi Hle; [done|].
  apply Forall_cons in Hapi as [Hapi Hrest]. apply IH; [by apply step_wf| |done|].
  - by destruct (api_step_delta s c 0 Hwf Hc Hapi).
  - intros id. destruct (api_step_delta s c id Hwf Hc Hapi) as (_ & H & _). auto.
Qed.

Lemma releases_own_api s c : releases_own s c → is_api c.
Proof. by destruct c. Qed.

Lemma api_run_eq cs : ∀ s,
  wf s → contexts s = ∅ → releases_own_from s cs →
  (∀ id, refcount s id = Z.of_nat (holders s id)) →
  ∀ id, refcount (run_from s cs) id = Z.of_nat (holders (run_from s cs) id).
Proof.
  induction cs as [|c cs IH]; intros s Hwf Hc Hrel Heq; [done|].
  destruct Hrel as [Hrel Hrest]. pose proof (releases_own_api _ _ Hrel) as Hapi.
  apply IH; [by apply step_wf| |done|].
  - by destruct (api_step_delta s c 0 Hwf Hc Hapi).
  - intros id. destruct (api_step_delta s c id Hwf Hc Hapi) as (_ & _ & H). auto.
Qed.

Lemma constructor_counts id :
  refcount constructor id = Z.of_nat (holders constructor id).
Proof. unfold refcount, holders. simpl. by rewrite lookup_empty, holders_in_empty. Qed.

(** * The properties C1 to C10 of the specification *)

(** ** C1: reference counts and holders *)

(** C1, as stated, fails: in [double_release] the second [remove] of owner
    "1-10" passes the owner/context check although that owner no longer
    holds handle 1, so the count drops to 1 while two other owners still
    hold the handle. *)
Lemma double_release_breaks_count :
  Forall is_api double_release ∧
  storage (run double_release) !! 1 = Some {| object := objX; count := 1 |} ∧
  holders (run double_release) 1 = 2%nat ∧
  refcount (run double_release) 1 ≠ Z.of_nat (holders (run double_release) 1).
Proof.
  split_and!.
  - repeat constructor.
  - by vm_compute.
  - by vm_compute.
  - by vm_compute.
Qed.

(** C1 (amended). In every state reached from the initial one by add, remove
    and clear calls in which every remove that passes the owner/context
    check names a handle of the caller's set, the count of every stored
    handle is the number of owner records whose set holds it, and a handle
    without an entry has no holder. *)
Theorem count_is_number_of_holders (cs : list call) :
  releases_own_from constructor cs →
  (∀ id p, storage (run cs) !! id = Some p →
           count p = Z.of_nat (holders (run cs) id)) ∧
  (∀ id, storage (run cs) !! id = None → holders (run cs) id = 0%nat).
Proof.
  intros Hrel.
  pose proof (api_run_eq cs constructor constructor_wf eq_refl Hrel constructor_counts)
    as Heq.
  fold (run cs) in Heq. split.
  - intros id p Hp. specialize (Heq id). unfold refcount in Heq. by rewrite Hp in Heq.
  - intros id Hp. specialize (Heq id). unfold refcount in Heq. rewrite Hp in Heq. lia.
Qed.

Lemma count_is_number_of_holders_witness :
  releases_own_from constructor orderly_release ∧
  (∀ id p, storage (run orderly_release) !! id = Some p →
           count p = Z.of_nat (holders (run orderly_release) id)) ∧
  (∀ id, storage (run orderly_release) !! id = None →
         holders (run orderly_release) id = 0%nat).
Proof.
  assert (releases_own_from constructor orderly_release) as H.
  { vm_compute. tauto. }
  split; [exact H|]. exact (count_is_number_of_holders orderly_release H).
Defined.

(** ** C8: remove checks the owner and its context id *)

(** C8. [remove] proceeds only when a record exists under the key of the
    WebContents and its context id is the given one: otherwise the registry
    is left exactly as it was, so that no count and no table changes; and a
    call that changes the registry has found such a record. *)
Theorem remove_ignored_without_matching_owner
    (s : ObjectsRegistry) (w : WebContents) (ctx : string) (id : Z) (key : string) :
  getOwnerKey (JsWebContents w) None = Return key →
  ((¬ ∃ ow, owners s !! key = Some ow ∧ contextId ow = ctx) →
   remove s w ctx id = s) ∧
  (remove s w ctx id ≠ s →
   ∃ ow, owners s !! key = Some ow ∧ contextId ow = ctx).
Proof.
  intros Hkey. rewrite getOwnerKey_webContents in Hkey. injection Hkey as <-.
  destruct (remove_accepted s w ctx) eqn:Hacc.
  - unfold remove_accepted in Hacc.
    destruct (owners s !! ownerKeyOf w) as [ow|] eqn:Hk; [|done].
    apply bool_decide_eq_true in Hacc. split.
    + intros Hno. destruct Hno. eauto.
    + eauto.
  - pose proof (remove_rejected s w ctx id Hacc) as Hsame. split; [done|].
    intros Hne. by destruct Hne.
Qed.

Lemma remove_ignored_without_matching_owner_witness :
  remove (run [Add (E1 10) "ctxA" objX]) (E1 10) "ctxB" 1
  = run [Add (E1 10) "ctxA" objX].
Proof.
  refine (proj1 (remove_ignored_without_matching_owner
                   (run [Add (E1 10) "ctxA" objX]) (E1 10) "ctxB" 1 "1-10" eq_refl) _).
  intros (ow & Hk & Hctx). vm_compute in Hk. injection Hk as <-. discriminate Hctx.
Defined.

(** ** C10: remove does not check membership *)

(** C10. When the record under the key of the WebContents exists and has the
    given context id, [remove] dereferences the handle in the store, also
    when the handle is not in that record's set: the call then is exactly
    one [dereference]. *)
Theorem remove_dereferences_unheld_handle
    (s : ObjectsRegistry) (w : WebContents) (ctx : string) (id : Z) (ow : owner) :
  owners s !! ownerKeyOf w = Some ow → contextId ow = ctx →
  remove s w ctx id
  = dereference
      (set_owners <[ownerKeyOf w := {| contextId := contextId ow;
                                       storageSet := storageSet ow ∖ {[id]} |}]> s) id ∧
  storage (remove s w ctx id) !! id = released (storage s !! id) ∧
  (id ∉ storageSet ow → remove s w ctx id = dereference s id).
Proof.
  intros Hk Hctx. rewrite (remove_accepted_eq _ _ _ _ _ Hk Hctx).
  split_and!; [done| |].
  - rewrite dereference_storage. by case_decide.
  - intros Hnin. f_equal. destruct s as [n st os cx hd ls cl].
    unfold set_owners. simpl in *. f_equal. apply insert_id. rewrite Hk.
    destruct ow as [c set]. simpl in *. do 2 f_equal. set_solver.
Qed.

Lemma remove_dereferences_unheld_handle_witness :
  held_by (owners (run [Add (E1 10) "ctxA" objX; Add (E2 11) "ctxB" objY]))
    (ownerKeyOf (E1 10)) 2 = false ∧
  get (run [Add (E1 10) "ctxA" objX; Add (E2 11) "ctxB" objY]) 2 = Some objY ∧
  get (remove (run [Add (E1 10) "ctxA" objX; Add (E2 11) "ctxB" objY])
         (E1 10) "ctxA" 2) 2 = None.
Proof.
  split_and!; [by vm_compute..|].
  unfold get.
  rewrite (proj1 (proj2 (remove_dereferences_unheld_handle
    (run [Add (E1 10) "ctxA" objX; Add (E2 11) "ctxB" objY]) (E1 10) "ctxA" 2
    {| contextId := "ctxA"; storageSet := {[1]} |} ltac:(by vm_compute) eq_refl))).
  by vm_compute.
Defined.

(** ** C9: releasing a freed handle again *)

Lemma set_owners_id s f : f (owners s) = owners s → set_owners f s = s.
Proof. intros H. destruct s. unfold set_owners. simpl in *. by rewrite H. Qed.

(** C9. Dereferencing a handle that has no entry changes nothing; and when
    [add] has returned [h] and a [remove] of [h] has deleted its entry, a
    second identical [remove] leaves the whole state as it is, with [h]
    still absent. *)
Theorem second_remove_is_noop
    (s : ObjectsRegistry) (w : WebContents) (ctx : string) (o : obj)
    (s1 : ObjectsRegistry) (h : Z) :
  add s w ctx o = (s1, Return h) →
  storage (remove s1 w ctx h) !! h = None →
  (∀ s' id, storage s' !! id = None → dereference s' id = s') ∧
  remove (remove s1 w ctx h) w ctx h = remove s1 w ctx h ∧
  get (remove s1 w ctx h) h = None.
Proof.
  intros _ Hfreed. split_and!.
  - apply dereference_absent.
  - destruct (remove_accepted s1 w ctx) eqn:Hacc.
    + unfold remove_accepted in Hacc.
      destruct (owners s1 !! ownerKeyOf w) as [ow|] eqn:Hk; [|done].
      apply bool_decide_eq_true in Hacc.
      set (s2 := remove s1 w ctx h) in *.
      assert (owners s2 !! ownerKeyOf w
              = Some {| contextId := contextId ow;
                        storageSet := storageSet ow ∖ {[h]} |}) as Hk2.
      { unfold s2. rewrite (remove_accepted_eq _ _ _ _ _ Hk Hacc).
        destruct (dereference_frame
          (set_owners <[ownerKeyOf w := {| contextId := contextId ow;
                                           storageSet := storageSet ow ∖ {[h]} |}]> s1) h)
          as (_ & -> & _).
        simpl. by rewrite lookup_insert_eq. }
      rewrite (remove_accepted_eq s2 _ _ _ _ Hk2 Hacc). simpl.
      rewrite set_owners_id.
      * by apply dereference_absent.
      * apply insert_id. rewrite Hk2. do 2 f_equal. set_solver.
    + by rewrite !(remove_rejected s1) by done.
  - unfold get. by rewrite Hfreed.
Qed.

Lemma second_remove_is_noop_witness :
  get (remove (run [Add (E1 10) "ctxA" objX]) (E1 10) "ctxA" 1) 1 = None ∧
  remove (remove (run [Add (E1 10) "ctxA" objX]) (E1 10) "ctxA" 1) (E1 10) "ctxA" 1
  = remove (run [Add (E1 10) "ctxA" objX]) (E1 10) "ctxA" 1.
Proof.
  destruct (second_remove_is_noop constructor (E1 10) "ctxA" objX
              (run [Add (E1 10) "ctxA" objX]) 1)
    as (_ & Hsame & Hget).
  - by vm_compute.
  - by vm_compute.
  - split; [exact Hget|exact Hsame].
Defined.

(** ** C6: a freed handle is not handed out again *)

Lemma remove_nextId s w ctx id : nextId (remove s w ctx id) = nextId s.
Proof.
  unfold remove. rewrite getOwnerKey_webContents.
  destruct (owners s !! ownerKeyOf w); [|done]. case_bool_decide; [|done].
  by destruct (dereference_frame
    (set_owners <[ownerKeyOf w := {| contextId := contextId o;
                                     storageSet := storageSet o ∖ {[id]} |}]> s) id)
    as (-> & _).
Qed.

Lemma clear_nextId s k ctx : nextId (clear s k ctx) = nextId s.
Proof.
  unfold clear. destruct (owners s !! k) as [ow|]; [|done].
  case_bool_decide; [done|]. simpl.
  by destruct (dereference_all_frame (elements (storageSet ow)) s) as (-> & _).
Qed.

Lemma call_listeners_nextId ls e : ∀ s, nextId (call_listeners ls e s).1 = nextId s.
Proof.
  induction ls as [|l ls IH]; intros s; simpl; [done|].
  assert (nextId (call_listener l e s).1 = nextId s) as Hl.
  { unfold call_listener. destruct (l_event l), e; simpl; try done.
    - unfold deleteListener. case_bool_decide; [|done]. by rewrite clear_nextId.
    - unfold processChangeListener. case_bool_decide; [|done].
      destruct (owners s !! l_ownerKey l); [|done]. by destruct (getOwnerKey _ _). }
  destruct (call_listener l e s) as [s' [[]|]]; simpl in *; [|done].
  by rewrite IH.
Qed.

Lemma step_nextId s c : wf s → nextId s ≤ nextId (step s c).1.
Proof.
  intros Hwf. destruct c as [w ctx o|w ctx id|k ctx|em e]; simpl.
  - destruct (add_returns s w ctx o Hwf) as (s' & id & -> & _ & _ & _ & _ & Hn & _).
    done.
  - by rewrite remove_nextId.
  - by rewrite clear_nextId.
  - unfold emit. by rewrite call_listeners_nextId.
Qed.

(** Every handle returned along a run is at most the counter reached. *)
Lemma returned_from_bound cs : ∀ s,
  wf s → Forall (λ r, r ≤ nextId (run_from s cs)) (returned_from s cs) ∧
         nextId s ≤ nextId (run_from s cs).
Proof.
  induction cs as [|c cs IH]; intros s Hwf; simpl.
  - split; [constructor|done].
  - pose proof (step_wf s c Hwf) as Hwf'. pose proof (step_nextId s c Hwf) as Hn.
    destruct (IH _ Hwf') as [Hall Hmono]. change (run_from s (c :: cs))
      with (run_from (step s c).1 cs).
    assert (∀ r, (step s c).2 = Some r → r ≤ nextId (step s c).1) as Hret.
    { intros r. destruct c as [w ctx o|w ctx id|k ctx|em e]; simpl; try done.
      destruct (add_returns s w ctx o Hwf) as (s' & id & -> & _ & _ & _ & Hid & _).
      simpl. intros [= <-]. lia. }
    destruct (step s c) as [s' [r|]]; simpl in *; split; try done; try lia.
    constructor; [|done]. specialize (Hret r eq_refl). lia.
Qed.

(** An object without hidden value gets one only by being registered. *)
Lemma dereference_hidden_absent s id o :
  hidden s !! o = None → hidden (dereference s id) !! o = None.
Proof.
  intros H. unfold dereference. destruct (storage s !! id) as [p|]; [|done].
  case_bool_decide; simpl; [|done]. apply lookup_delete_None. by right.
Qed.

Lemma dereference_all_hidden_absent l o : ∀ s,
  hidden s !! o = None → hidden (foldl dereference s l) !! o = None.
Proof.
  induction l as [|a l IH]; intros s H; simpl; [done|].
  by apply IH, dereference_hidden_absent.
Qed.

Lemma clear_hidden_absent s k ctx o :
  hidden s !! o = None → hidden (clear s k ctx) !! o = None.
Proof.
  intros H. unfold clear. destruct (owners s !! k) as [ow|]; [|done].
  case_bool_decide; [done|]. simpl. by apply dereference_all_hidden_absent.
Qed.

Lemma step_hidden_absent s c o :
  wf s → ¬ registers o c → hidden s !! o = None → hidden (step s c).1 !! o = None.
Proof.
  intros Hwf Hreg H. destruct c as [w ctx o'|w ctx id|k ctx|em ev]; simpl.
  - simpl in Hreg. unfold add.
    destruct (saveToStorage s o') as [s1 id] eqn:Hsave.
    assert (hidden s1 !! o = None) as H1.
    { destruct (saveToStorage_cases s o' Hwf) as [(id0 & _ & Heq)|(_ & Heq)];
        rewrite Heq in Hsave.
      - by injection Hsave as <- <-.
      - unfold allocate in Hsave. injection Hsave as <- <-. simpl.
        by rewrite lookup_insert_ne. }
    destruct (saveToStorage_spec _ _ _ _ Hwf Hsave) as (Hwf1 & _ & Hst1 & _).
    rewrite getOwnerKey_webContents.
    destruct (resolveOwner s1 w (ownerKeyOf w) ctx) as [s2 key] eqn:Hres.
    destruct (resolveOwner_spec _ _ _ _ _ _ _ Hres Hwf1)
      as (Hwf2 & _ & Hst2 & Hh2 & ow & Hkey & _).
    rewrite <- Hst2 in Hst1.
    destruct (reference_spec _ _ _ _ Hwf2 Hkey Hst1) as (s3 & -> & _ & _ & Hh3 & _).
    simpl. by rewrite Hh3, Hh2.
  - unfold remove. rewrite getOwnerKey_webContents.
    destruct (owners s !! ownerKeyOf w); [|done]. case_bool_decide; [|done].
    by apply dereference_hidden_absent.
  - by apply clear_hidden_absent.
  - unfold emit. generalize (filter (λ l, l_emitter l = em ∧ l_event l = name_of ev)
                               (listeners s)).
    intros ls. revert s Hwf H. induction ls as [|l ls IH]; intros s Hwf H; simpl; [done|].
    assert (hidden (call_listener l ev s).1 !! o = None) as Hl.
    { unfold call_listener. destruct (l_event l), ev; simpl; try done.
      - unfold deleteListener. case_bool_decide; [|done]. by apply clear_hidden_absent.
      - unfold processChangeListener. case_bool_decide; [|done].
        destruct (owners s !! l_ownerKey l); [|done]. by destruct (getOwnerKey _ _). }
    pose proof (call_listener_wf l ev s Hwf) as Hwfl.
    destruct (call_listener l ev s) as [s' [[]|]]; simpl in *; [|done].
    by apply IH.
Qed.

Lemma run_from_hidden_absent cs o : ∀ s,
  wf s → Forall (λ c, ¬ registers o c) cs → hidden s !! o = None →
  hidden (run_from s cs) !! o = None.
Proof.
  induction cs as [|c cs IH]; intros s Hwf Hreg H; [done|].
  apply Forall_cons in Hreg as [Hc Hreg].
  apply IH; [by apply step_wf|done|by apply step_hidden_absent].
Qed.

(** C6. When the count of a stored handle is 1, [dereference] deletes its
    entry and the hidden value of its object in one step; [get] then finds
    nothing. The next registration of the same object, after any calls [cs']
    that do not register it, returns a handle strictly greater than every
    handle returned before. *)
Theorem freed_handle_is_not_reused
    (cs : list call) (h : Z) (p : pointer) (cs' : list call)
    (w : WebContents) (ctx : string) :
  storage (run cs) !! h = Some p → count p = 1 →
  Forall (λ c, ¬ registers (object p) c) cs' →
  storage (dereference (run cs) h) !! h = None ∧
  hidden (dereference (run cs) h) !! object p = None ∧
  get (dereference (run cs) h) h = None ∧
  ∃ s' h', add (run_from (dereference (run cs) h) cs') w ctx (object p)
             = (s', Return h') ∧
           h < h' ∧ Forall (λ r, r < h') (returned cs) ∧
           Forall (λ r, r < h') (returned_from (dereference (run cs) h) cs') ∧
           get s' h' = Some (object p).
Proof.
  intros Hp Hc Hreg. pose proof (run_wf cs) as Hwf.
  assert (dereference (run cs) h
          = set_storage (delete h) (set_hidden (delete (object p)) (run cs))) as Hd.
  { unfold dereference. rewrite Hp. by rewrite bool_decide_eq_true_2 by lia. }
  assert (hidden (dereference (run cs) h) !! object p = None) as Hhid
    by (rewrite Hd; simpl; apply lookup_delete_eq).
  assert (storage (dereference (run cs) h) !! h = None) as Hst
    by (rewrite Hd; simpl; apply lookup_delete_eq).
  split_and!; [done..|by unfold get; rewrite Hst|].
  pose proof (dereference_wf _ h Hwf) as Hwfd.
  pose proof (run_from_wf cs' _ Hwfd) as Hwf2.
  pose proof (run_from_hidden_absent cs' _ _ Hwfd Hreg Hhid) as Hhid2.
  destruct (add_returns _ w ctx (object p) Hwf2)
    as (s' & h' & Hadd & Hwf' & Hh' & _ & _ & _ & Hfresh).
  specialize (Hfresh Hhid2). destruct (dereference_frame (run cs) h) as (Hn & _).
  destruct (returned_from_bound cs' _ Hwfd) as [Hall2 Hmono2]. rewrite Hn in Hmono2.
  destruct (returned_from_bound cs constructor constructor_wf) as [Hall _].
  fold (run cs) in Hall.
  exists s', h'. split_and!; [done| | | |].
  - destruct (wf_storage _ _ Hwf _ _ Hp) as (? & _). lia.
  - eapply Forall_impl; [exact Hall|]. simpl. intros r Hr. lia.
  - eapply Forall_impl; [exact Hall2|]. simpl. intros r Hr. lia.
  - destruct (wf_hidden _ _ Hwf' _ _ Hh') as (p' & Hp' & Hobj).
    unfold get. by rewrite Hp', <- Hobj.
Qed.

Lemma freed_handle_is_not_reused_witness :
  ∃ s' h', add (run_from
                  (dereference (run [Add (E1 10) "ctxA" objX; Add (E2 11) "ctxB" objY]) 1)
                  [Add (E3 12) "ctxC" objY])
             (E1 10) "ctxA" objX = (s', Return h') ∧
           1 < h' ∧
           Forall (λ r, r < h') (returned [Add (E1 10) "ctxA" objX; Add (E2 11) "ctxB" objY]).
Proof.
  destruct (freed_handle_is_not_reused
              [Add (E1 10) "ctxA" objX; Add (E2 11) "ctxB" objY] 1
              {| object := objX; count := 1 |} [Add (E3 12) "ctxC" objY]
              (E1 10) "ctxA")
    as (_ & _ & _ & s' & h' & Hadd & Hlt & Hall & _).
  - by vm_compute.
  - reflexivity.
  - repeat constructor. simpl. discriminate.
  - exists s', h'. split_and!; [exact Hadd|exact Hlt|exact Hall].
Defined.

(** ** C7: clear *)

(** C7, as stated, fails on its last clause: after [overwritten_owner] the
    record under "1-10" is the only holder of handle 1, whose count is 2
    (the record created under "undefined-20" by the first reconciliation
    was replaced by the second one without being dereferenced); [clear]
    then leaves the handle retrievable. *)
Lemma clear_keeps_exclusive_handle :
  owners (run overwritten_owner) !! "1-10"
    = Some {| contextId := "ctxA"; storageSet := {[1]} |} ∧
  exclusively_held (run overwritten_owner) "1-10" 1 ∧
  refcount (run overwritten_owner) 1 = 2 ∧
  get (clear (run overwritten_owner) "1-10" "ctxA") 1 = Some objX.
Proof. split_and!; [by vm_compute| |by vm_compute..]. split; by vm_compute. Qed.

(** C7 (amended). [clear] with an unknown owner key or another context id
    changes nothing. On a match it deletes the owner record and the
    migration entry of the context id, and every handle of the record's set
    is dereferenced exactly once while the other entries are untouched, so
    that a handle of the set whose count was 1 is no longer retrievable. In
    a state reached by add, remove and clear calls alone, no handle held
    only by that owner is retrievable afterwards. *)
Theorem clear_releases_owner (cs : list call) (k ctx : string) :
  ((¬ ∃ ow, owners (run cs) !! k = Some ow ∧ contextId ow = ctx) →
   clear (run cs) k ctx = run cs) ∧
  (∀ ow, owners (run cs) !! k = Some ow → contextId ow = ctx →
     owners (clear (run cs) k ctx) = delete k (owners (run cs)) ∧
     contexts (clear (run cs) k ctx) = delete ctx (contexts (run cs)) ∧
     (∀ id, storage (clear (run cs) k ctx) !! id
            = if decide (id ∈ storageSet ow) then released (storage (run cs) !! id)
              else storage (run cs) !! id) ∧
     (∀ id, id ∈ storageSet ow → refcount (run cs) id ≤ 1 →
            get (clear (run cs) k ctx) id = None) ∧
     (Forall is_api cs →
      ∀ id, exclusively_held (run cs) k id → get (clear (run cs) k ctx) id = None)).
Proof.
  pose proof (run_wf cs) as Hwf. split.
  - intros Hno. destruct (owners (run cs) !! k) as [ow|] eqn:Hk.
    + apply (clear_mismatch _ _ _ ow Hk). intros Hctx. apply Hno. eauto.
    + by apply clear_unknown.
  - intros ow Hk <-. rewrite (clear_match _ _ _ Hk). simpl.
    destruct (dereference_all_frame (elements (storageSet ow)) (run cs))
      as (_ & -> & -> & _).
    assert (∀ id, storage (foldl dereference (run cs) (elements (storageSet ow))) !! id
                  = if decide (id ∈ storageSet ow)
                    then released (storage (run cs) !! id)
                    else storage (run cs) !! id) as Hstore.
    { intros id. case_decide as Hin.
      - apply dereference_all_once; [apply NoDup_elements|by apply elem_of_elements].
      - apply dereference_all_other. by rewrite elem_of_elements. }
    assert (∀ id, id ∈ storageSet ow → refcount (run cs) id ≤ 1 →
                  get (set_contexts (delete (contextId ow))
                         (set_owners (delete k)
                            (foldl dereference (run cs) (elements (storageSet ow))))) id
                  = None) as Hfreed.
    { intros id Hin Hle. unfold get. simpl. rewrite Hstore.
      rewrite decide_True by done. unfold released, refcount in *.
      destruct (storage (run cs) !! id) as [p|] eqn:Hp; [|done].
      pose proof (wf_count _ _ _ Hwf Hp).
      by rewrite bool_decide_eq_true_2 by lia. }
    split_and!; [done..|].
    intros Hapi id [Hheld Hone]. apply Hfreed.
    + apply held_by_true in Hheld as (ow' & Hk' & Hin). congruence.
    + assert (∀ i, refcount constructor i ≤ Z.of_nat (holders constructor i)) as H0
        by (intros i; rewrite constructor_counts; lia).
      pose proof (api_run_le cs constructor constructor_wf eq_refl Hapi H0 id) as Hle.
      fold (run cs) in Hle. rewrite Hone in Hle. lia.
Qed.

Lemma clear_releases_owner_witness :
  clear (run orderly_release) "9-9" "ctxA" = run orderly_release ∧
  get (clear (run [Add (E1 10) "ctxA" objX; Add (E2 11) "ctxB" objX;
                   Add (E2 11) "ctxB" objY]) "2-11" "ctxB") 2 = None.
Proof.
  split.
  - apply (proj1 (clear_releases_owner orderly_release "9-9" "ctxA")).
    intros (ow & Hk & _). by vm_compute in Hk.
  - refine (proj2 (proj2 (proj2 (proj2
      (proj2 (clear_releases_owner
                [Add (E1 10) "ctxA" objX; Add (E2 11) "ctxB" objX;
                 Add (E2 11) "ctxB" objY] "2-11" "ctxB")
         {| contextId := "ctxB"; storageSet := {[1; 2]} |} _ eq_refl)))) _ 2 _).
    + by vm_compute.
    + repeat constructor.
    + split; by vm_compute.
Defined.

(** ** C5: registering the same object twice *)

(** C5, as stated, fails when the first call reconciles a pending process
    swap (lines 52-58): the record of the WebContents keeps its old context
    id and the migration entry stays, so the second call reconciles again,
    replaces the new record by an empty one and increments the count once
    more. *)
Lemma add_twice_counts_twice :
  ∃ s1 s2,
    add (run swap_announced) (E1 10) "ctxB" objX = (s1, Return 1) ∧
    add s1 (E1 10) "ctxB" objX = (s2, Return 1) ∧
    refcount s1 1 = 2 ∧ refcount s2 1 = 3 ∧ s2 ≠ s1.
Proof.
  eexists _, _. split_and!; [by vm_compute..|].
  intros Heq. apply (f_equal (λ s, refcount s 1)) in Heq. by vm_compute in Heq.
Qed.

(** C5 (amended). In every reachable state, calling [add] twice with the same
    WebContents, context id and object returns the same handle both times;
    and unless the first call takes the branch of lines 52-58 (a record of
    another context id under the key of the WebContents, with a migration
    entry naming that key as old owner key), the second call leaves the
    count and the whole state as the first call left them. *)
Theorem add_twice (cs : list call) (w : WebContents) (ctx : string) (o : obj) :
  ∃ s1 s2 h,
    add (run cs) w ctx o = (s1, Return h) ∧
    add s1 w ctx o = (s2, Return h) ∧
    (reconciles (run cs) w ctx = false → s2 = s1).
Proof.
  pose proof (run_wf cs) as Hwf.
  destruct (add_returns (run cs) w ctx o Hwf)
    as (s1 & h & Hadd1 & Hwf1 & Hh1 & _).
  destruct (add_returns s1 w ctx o Hwf1) as (s2 & h2 & Hadd2 & _ & _ & Hh2 & _).
  assert (saveToStorage s1 o = (s1, h)) as Hsave.
  { unfold saveToStorage. rewrite Hh1.
    by rewrite bool_decide_eq_false_2 by by eapply wf_hidden_nonzero. }
  rewrite Hsave in Hh2. simpl in Hh2. subst h2.
  exists s1, s2, h. split_and!; [done..|].
  intros Hrec.
  destruct (add_plain (run cs) w ctx o Hwf Hrec)
    as (s1' & h' & Hadd1' & _ & _ & _ & (ow & Hk & Hctx & Hin) & _).
  rewrite Hadd1 in Hadd1'. injection Hadd1' as <- <-.
  unfold add in Hadd2. rewrite Hsave, getOwnerKey_webContents in Hadd2.
  unfold resolveOwner, reference in Hadd2. rewrite Hk in Hadd2.
  rewrite bool_decide_eq_false_2 in Hadd2 by naive_solver.
  rewrite Hk in Hadd2. rewrite bool_decide_eq_true_2 in Hadd2 by done.
  by injection Hadd2.
Qed.

Lemma add_twice_witness :
  ∃ s1 h, add (run [Add (E2 11) "ctxB" objY]) (E1 10) "ctxA" objX = (s1, Return h) ∧
          add s1 (E1 10) "ctxA" objX = (s1, Return h).
Proof.
  destruct (add_twice [Add (E2 11) "ctxB" objY] (E1 10) "ctxA" objX)
    as (s1 & s2 & h & H1 & H2 & Hsame).
  exists s1, h. split; [exact H1|].
  rewrite <- (Hsame ltac:(by vm_compute)) at 2. exact H2.
Defined.

(** ** C2: the migration scenario *)

Lemma ownerKeyOf_inj_pid e p1 p2 :
  ownerKeyOf {| wc_id := e; wc_processId := p1 |}
  = ownerKeyOf {| wc_id := e; wc_processId := p2 |} → p1 = p2.
Proof.
  unfold ownerKeyOf. simpl. intros H.
  apply (inj (String.append _)) in H. apply (inj (String.append _)) in H.
  by apply (inj pretty) in H.
Qed.

Lemma saveToStorage_owners s o : owners (saveToStorage s o).1 = owners s.
Proof.
  unfold saveToStorage. destruct (hidden s !! o); [|done]. by case_bool_decide.
Qed.

Lemma saveToStorage_fresh s o :
  hidden s !! o = None → saveToStorage s o = allocate s o.
Proof. intros H. unfold saveToStorage. by rewrite H. Qed.

Lemma saveToStorage_known s o id :
  hidden s !! o = Some id → id ≠ 0 → saveToStorage s o = (s, id).
Proof.
  intros H Hid. unfold saveToStorage. rewrite H. by rewrite bool_decide_eq_false_2.
Qed.

(** The first registration from a WebContents (lines 39-45), written out. *)
Lemma add_new_owner s w ctx o s1 id p :
  saveToStorage s o = (s1, id) →
  owners s !! ownerKeyOf w = None →
  storage s1 !! id = Some p →
  add s w ctx o
  = (set_storage <[id := {| object := object p; count := count p + 1 |}]>
       (set_owners <[ownerKeyOf w := {| contextId := ctx; storageSet := {[id]} |}]>
          (registerBoth w (ownerKeyOf w) ctx s1)),
     Return id).
Proof.
  intros Hsave Hk Hp. unfold add. pose proof (saveToStorage_owners s o) as Ho.
  rewrite Hsave in *. cbn [fst snd] in *.
  rewrite getOwnerKey_webContents. unfold resolveOwner. rewrite Ho, Hk.
  unfold reference. simpl. rewrite lookup_insert_eq. simpl.
  rewrite bool_decide_eq_false_2 by set_solver. rewrite Hp.
  unfold set_storage, set_owners. simpl. do 2 f_equal.
  rewrite insert_insert_eq. do 2 f_equal. set_solver.
Qed.

Section migration_scenario.
Variables (e P1 P2 : Z) (ctxA : string) (x : obj).
Hypothesis swap : P1 ≠ P2.
Hypothesis new_process : P2 ≠ 0.

Lemma scenario_first_add :
  add constructor (at_process e P1) ctxA x = (scenario_registered e P1 ctxA x, Return 1).
Proof.
  rewrite (add_new_owner _ _ _ _ _ _ {| object := x; count := 0 |}
             (saveToStorage_fresh constructor x (lookup_empty _)));
    [|done|apply lookup_insert_eq].
  unfold scenario_registered. by do 2 f_equal.
Qed.

Lemma scenario_swap :
  emit (scenario_registered e P1 ctxA x) e (render_frame_changed P1 P2)
  = (scenario_swapped e P1 P2 ctxA x, Return ()).
Proof.
  unfold emit. cbn [listeners scenario_registered name_of].
  rewrite filter_cons_False by (cbn; intros [_ ?]; done).
  rewrite filter_cons_True by done. rewrite filter_nil.
  cbn [call_listeners call_listener l_event closure].
  unfold processChangeListener.
  cbn [l_processId l_ownerKey closure wc_processId at_process].
  rewrite bool_decide_eq_true_2 by done.
  cbn [owners scenario_registered]. rewrite lookup_singleton_eq.
  rewrite getOwnerKey_number by done. reflexivity.
Qed.

Lemma scenario_keys : ownerKeyOf (at_process e P1) ≠ ownerKeyOf (at_process e P2).
Proof. intros Heq. by apply ownerKeyOf_inj_pid in Heq. Qed.

Lemma scenario_second_add :
  add (scenario_swapped e P1 P2 ctxA x) (at_process e P2) ctxA x
  = (scenario_migrated e P1 P2 ctxA x, Return 1).
Proof.
  rewrite (add_new_owner _ _ _ _ _ _ {| object := x; count := 1 |}
             (saveToStorage_known (scenario_swapped e P1 P2 ctxA x) x 1
                (lookup_singleton_eq _ _) ltac:(done)));
    [|apply lookup_singleton_ne, scenario_keys|apply lookup_singleton_eq].
  unfold scenario_migrated. by do 2 f_equal.
Qed.

Lemma scenario_run :
  run (migration_scenario e P1 P2 ctxA x) = scenario_migrated e P1 P2 ctxA x.
Proof.
  unfold run, run_from, migration_scenario. cbn [foldl step].
  rewrite scenario_first_add. cbn [fst]. rewrite scenario_swap. cbn [fst].
  by rewrite scenario_second_add.
Qed.

(** C2 (amended). In the migration scenario the second [add] finds no record
    under the key of the WebContents at its new process and creates one
    there, as for a first registration. Both calls return handle 1, [get]
    still returns the object, and its count is 2: one for the record under
    the old key, which is kept with the handle in its set, and one for the
    new record. *)
Theorem migration_scenario_counts_both_owners :
  returned (migration_scenario e P1 P2 ctxA x) = [1; 1] ∧
  get (run (migration_scenario e P1 P2 ctxA x)) 1 = Some x ∧
  refcount (run (migration_scenario e P1 P2 ctxA x)) 1 = 2 ∧
  owners (run (migration_scenario e P1 P2 ctxA x)) !! ownerKeyOf (at_process e P1)
    = Some {| contextId := ctxA; storageSet := {[1]} |} ∧
  owners (run (migration_scenario e P1 P2 ctxA x)) !! ownerKeyOf (at_process e P2)
    = Some {| contextId := ctxA; storageSet := {[1]} |}.
Proof.
  rewrite scenario_run. split_and!.
  - unfold returned, migration_scenario. cbn [returned_from step].
    rewrite scenario_first_add. rewrite scenario_swap. cbn [fst].
    by rewrite scenario_second_add.
  - unfold get. cbn [storage scenario_migrated]. by rewrite lookup_singleton_eq.
  - unfold refcount. cbn [storage scenario_migrated]. by rewrite lookup_singleton_eq.
  - cbn [owners scenario_migrated].
    rewrite lookup_insert_ne by (apply not_eq_sym, scenario_keys).
    apply lookup_singleton_eq.
  - cbn [owners scenario_migrated]. apply lookup_insert_eq.
Qed.

End migration_scenario.

Lemma migration_scenario_counts_both_owners_witness :
  refcount (run [Add (E1 10) "ctxA" objX; Emit 1 (render_frame_changed 10 20);
                 Add (E1 20) "ctxA" objX]) 1 = 2.
Proof.
  exact (proj1 (proj2 (proj2
    (migration_scenario_counts_both_owners 1 10 20 "ctxA" objX
       ltac:(done) ltac:(done))))).
Defined.

(** C2, as stated, fails: after the scenario the count of the object is 2,
    not 1, and the record under the old key "1-10" is still there. *)
Lemma migration_scenario_count_is_two :
  returned [Add (E1 10) "ctxA" objX; Emit 1 (render_frame_changed 10 20);
            Add (E1 20) "ctxA" objX] = [1; 1] ∧
  storage (run [Add (E1 10) "ctxA" objX; Emit 1 (render_frame_changed 10 20);
                Add (E1 20) "ctxA" objX]) !! 1
    = Some {| object := objX; count := 2 |} ∧
  owners (run [Add (E1 10) "ctxA" objX; Emit 1 (render_frame_changed 10 20);
               Add (E1 20) "ctxA" objX]) !! "1-10"
    = Some {| contextId := "ctxA"; storageSet := {[1]} |} ∧
  refcount (run [Add (E1 10) "ctxA" objX; Emit 1 (render_frame_changed 10 20);
                 Add (E1 20) "ctxA" objX]) 1 ≠ 1.
Proof. split_and!; by vm_compute. Qed.

(** ** C3: the confirming registration *)

(** C3. When [add] finds a record under the key of the WebContents with
    another context id and a migration entry, under that record's context
    id, whose old owner key is this key, it creates the new record under the
    entry's new owner key, with the given context id and, once line 68 has
    run, the returned handle as only member. Line 58 then deletes the entry
    of the context id given to [add], not the entry found on line 51, which
    stays in the migration table. *)
Theorem reconciling_add_keeps_migration_entry
    (cs : list call) (w : WebContents) (ctx : string) (o : obj)
    (ow : owner) (c : context) :
  owners (run cs) !! ownerKeyOf w = Some ow →
  contextId ow ≠ ctx →
  contexts (run cs) !! contextId ow = Some c →
  oldOwnerKey c = ownerKeyOf w →
  ∃ s' h, add (run cs) w ctx o = (s', Return h) ∧
    owners s' !! newOwnerKey c = Some {| contextId := ctx; storageSet := {[h]} |} ∧
    contexts s' = delete ctx (contexts (run cs)) ∧
    contexts s' !! contextId ow = Some c.
Proof.
  intros Hk Hctx Hc Hold. pose proof (run_wf cs) as Hwf. unfold add.
  destruct (saveToStorage (run cs) o) as [s1 id] eqn:Hsave.
  destruct (saveToStorage_spec _ _ _ _ Hwf Hsave)
    as (Hwf1 & _ & Hst1 & Ho1 & Hc1 & _).
  rewrite getOwnerKey_webContents.
  assert (resolveOwner s1 w (ownerKeyOf w) ctx
          = (registerBoth w (newOwnerKey c) ctx
               (set_contexts (delete ctx)
                  (set_owners <[newOwnerKey c := {| contextId := ctx;
                                                    storageSet := ∅ |}]> s1)),
             newOwnerKey c)) as Hres.
  { unfold resolveOwner. rewrite Ho1, Hk, Hc1, Hc.
    rewrite bool_decide_eq_true_2 by done. by rewrite bool_decide_eq_true_2. }
  rewrite Hres.
  destruct (resolveOwner_spec _ _ _ _ _ _ _ Hres Hwf1) as (Hwf2 & _ & Hst2 & _).
  rewrite <- Hst2 in Hst1.
  edestruct (reference_spec _ (newOwnerKey c) id {| contextId := ctx; storageSet := ∅ |}
               Hwf2) as (s3 & -> & _ & _ & _ & Hc3 & Hk3 & _); [|exact Hst1|].
  { simpl. apply lookup_insert_eq. }
  exists s3, id. split_and!; [done| | |].
  - rewrite Hk3. simpl. do 2 f_equal. set_solver.
  - rewrite Hc3. simpl. by rewrite Hc1.
  - rewrite Hc3. simpl. rewrite Hc1. by rewrite lookup_delete_ne.
Qed.

Lemma reconciling_add_keeps_migration_entry_witness :
  ∃ s' h, add (run swap_announced) (E1 10) "ctxB" objX = (s', Return h) ∧
    owners s' !! "undefined-20" = Some {| contextId := "ctxB"; storageSet := {[h]} |} ∧
    contexts s' !! "ctxA"
    = Some {| oldOwnerKey := "1-10"; newOwnerKey := "undefined-20" |}.
Proof.
  destruct (reconciling_add_keeps_migration_entry swap_announced (E1 10) "ctxB" objX
              {| contextId := "ctxA"; storageSet := {[1]} |}
              {| oldOwnerKey := "1-10"; newOwnerKey := "undefined-20" |})
    as (s' & h & Hadd & Hnew & _ & Hkept).
  - by vm_compute.
  - done.
  - by vm_compute.
  - by vm_compute.
  - exists s', h. split_and!; [exact Hadd|exact Hnew|exact Hkept].
Defined.

(** ** C4: the process-swap listener *)

Lemma pretty_N_go_starts x : ∀ s, starts_otherwise s → starts_otherwise (pretty_N_go x s).
Proof.
  induction (N.lt_wf_0 x) as [x _ IH]; intros s Hs.
  assert (x = 0 ∨ 0 < x)%N as [->|Hpos] by lia.
  - by rewrite pretty_N_go_0.
  - rewrite pretty_N_go_step by done. apply IH.
    + by apply N.div_lt.
    + simpl. unfold pretty_N_char. by repeat case_match.
Qed.

Lemma pretty_Z_starts (z : Z) : starts_otherwise (pretty z).
Proof.
  assert (∀ p : positive, starts_otherwise (pretty p)) as Hpos.
  { intros p. unfold pretty, pretty_positive, pretty, pretty_N.
    rewrite decide_False by done.
    rewrite pretty_N_go_step by lia. apply pretty_N_go_starts.
    simpl. unfold pretty_N_char. by repeat case_match. }
  destruct z as [|p|p]; unfold pretty, pretty_Z; [done|apply Hpos|done].
Qed.

Lemma undefined_key_is_no_owner_key (w : WebContents) (pid : Z) :
  "undefined-" +:+ pretty pid ≠ ownerKeyOf w.
Proof.
  unfold ownerKeyOf. pose proof (pretty_Z_starts (wc_id w)) as Hs.
  destruct (pretty (wc_id w)) as [|a r]; [done|].
  simpl in *. intros [= <- _]. done.
Qed.

(** C4. When the notification names the process id seen at subscription and
    the owner record still exists, the listener writes, under its context
    id, an entry whose old owner key is its owner key, and removes itself
    from the listeners. The new owner key it writes is "undefined-" followed
    by the new process id (line 156 hands [webContents.id], a number, to
    [getOwnerKey]), which is the owner key of no WebContents: the stable id
    of the endpoint is not part of it. *)
Theorem swap_listener_writes_undefined_key
    (l : listener) (oldProcessId newProcessId : Z) (s : ObjectsRegistry) (ow : owner) :
  oldProcessId = l_processId l →
  owners s !! l_ownerKey l = Some ow →
  newProcessId ≠ 0 →
  processChangeListener l oldProcessId newProcessId s
  = (removeListener l
       (set_contexts
          <[l_contextId l := {| oldOwnerKey := l_ownerKey l;
                                newOwnerKey := "undefined-" +:+ pretty newProcessId |}]>
          s),
     Return ()) ∧
  "undefined-" +:+ pretty newProcessId
  ≠ ownerKeyOf {| wc_id := l_emitter l; wc_processId := newProcessId |} ∧
  getOwnerKey (JsWebContents {| wc_id := l_emitter l; wc_processId := oldProcessId |})
    (Some newProcessId)
  = Return (ownerKeyOf {| wc_id := l_emitter l; wc_processId := newProcessId |}).
Proof.
  intros Hold Hk Hnew. split_and!.
  - unfold processChangeListener. rewrite bool_decide_eq_true_2 by done.
    rewrite Hk. by rewrite getOwnerKey_number.
  - apply undefined_key_is_no_owner_key.
  - unfold getOwnerKey. simpl. by rewrite bool_decide_eq_false_2.
Qed.

Lemma swap_listener_writes_undefined_key_witness :
  processChangeListener
    {| l_closure := 1; l_event := RenderFrameChanged; l_emitter := 1;
       l_ownerKey := "1-10"; l_contextId := "ctxA"; l_processId := 10 |}
    10 20 (run [Add (E1 10) "ctxA" objX])
  = (removeListener
       {| l_closure := 1; l_event := RenderFrameChanged; l_emitter := 1;
          l_ownerKey := "1-10"; l_contextId := "ctxA"; l_processId := 10 |}
       (set_contexts
          <["ctxA" := {| oldOwnerKey := "1-10"; newOwnerKey := "undefined-20" |}]>
          (run [Add (E1 10) "ctxA" objX])),
     Return ()) ∧
  getOwnerKey (JsWebContents (E1 10)) (Some 20) = Return "1-20".
Proof.
  pose proof (swap_listener_writes_undefined_key
    {| l_closure := 1; l_event := RenderFrameChanged; l_emitter := 1;
       l_ownerKey := "1-10"; l_contextId := "ctxA"; l_processId := 10 |}
    10 20 (run [Add (E1 10) "ctxA" objX])
    {| contextId := "ctxA"; storageSet := {[1]} |}
    eq_refl ltac:(by vm_compute) ltac:(done)) as (Hfire & _ & Hkey).
  split; [exact Hfire|exact Hkey].
Defined.

(** * Further properties of the code *)

(** ** getOwnerKey separates the endpoints *)







(** ** The handle store along every run *)

(** X2. In every state reached by calls and notifications, [get] and the
    hidden values agree: a handle retrieves an object exactly when that
    object carries the handle as its hidden value. Every stored handle lies
    between 1 and [nextId] and has a positive count. *)
Theorem store_agrees_with_hidden_values (cs : list call) :
  (∀ h o, get (run cs) h = Some o ↔ hidden (run cs) !! o = Some h) ∧
  (∀ h p, storage (run cs) !! h = Some p →
          1 ≤ h ≤ nextId (run cs) ∧ 1 ≤ count p).
Proof.
  pose proof (run_wf cs) as Hwf. split.
  - intros h o. unfold get. split.
    + destruct (storage (run cs) !! h) as [p|] eqn:Hp; [|done]. simpl.
      intros [= <-]. by destruct (wf_storage _ _ Hwf _ _ Hp) as (_ & ? & _).
    + intros Ho. destruct (wf_hidden _ _ Hwf _ _ Ho) as (p & -> & <-). done.
  - intros h p Hp. destruct (wf_storage _ _ Hwf _ _ Hp) as (? & _).
    pose proof (wf_count _ _ _ Hwf Hp). done.
Qed.

(** ** What add changes *)

Lemma saveToStorage_other s o s1 id :
  saveToStorage s o = (s1, id) →
  (∀ h, h ≠ id → storage s1 !! h = storage s !! h) ∧
  (∀ o', o' ≠ o → hidden s1 !! o' = hidden s !! o').
Proof.
  unfold saveToStorage, allocate. intros Hsave.
  destruct (hidden s !! o) as [id0|]; [case_bool_decide|];
    injection Hsave as <- <-; simpl; split; intros; try done;
    by rewrite lookup_insert_ne.
Qed.

Lemma reference_other s key id s3 r :
  reference s key id = (s3, r) →
  ∀ h, h ≠ id → storage s3 !! h = storage s !! h.
Proof.
  unfold reference. intros Href h Hne.
  destruct (owners s !! key) as [ow|]; [|by injection Href as <- _].
  case_bool_decide; [by injection Href as <- _|]. simpl in Href.
  destruct (storage s !! id) as [p|]; injection Href as <- _; simpl; [|done].
  by rewrite lookup_insert_ne.
Qed.

(** [add] in a consistent state: the returned handle, what it stores, and
    what it leaves alone. *)
Lemma add_effect s w ctx o :
  wf s →
  ∃ s' id p, add s w ctx o = (s', Return id) ∧ wf s' ∧
    storage s' !! id = Some p ∧ object p = o ∧
    (∃ k ow, owners s' !! k = Some ow ∧ contextId ow = ctx ∧ id ∈ storageSet ow) ∧
    (∀ h, h ≠ id → storage s' !! h = storage s !! h) ∧
    (∀ o', o' ≠ o → hidden s' !! o' = hidden s !! o') ∧
    (∀ h0, hidden s !! o = Some h0 → id = h0 ∧ nextId s' = nextId s) ∧
    (hidden s !! o = None → id = nextId s + 1 ∧ nextId s' = nextId s + 1).
Proof.
  intros Hwf. unfold add.
  destruct (saveToStorage s o) as [s1 id] eqn:Hsave.
  destruct (saveToStorage_spec _ _ _ _ Hwf Hsave)
    as (Hwf1 & Hh1 & Hst1 & Ho1 & Hc1 & Hn1 & Hid & Hfresh & _).
  destruct (saveToStorage_other _ _ _ _ Hsave) as [Hso Hho].
  rewrite getOwnerKey_webContents.
  destruct (resolveOwner s1 w (ownerKeyOf w) ctx) as [s2 key] eqn:Hres.
  destruct (resolveOwner_spec _ _ _ _ _ _ _ Hres Hwf1)
    as (Hwf2 & Hn2 & Hst2 & Hh2 & ow & Hkey & Hctx).
  rewrite <- Hst2 in Hst1.
  destruct (reference_spec _ _ _ _ Hwf2 Hkey Hst1)
    as (s3 & Href & Hwf3 & Hn3 & Hh3 & _ & Hk3 & _).
  pose proof (reference_other _ _ _ _ _ Href) as Hro. rewrite Href.
  assert (hidden s3 !! o = Some id) as Hh by (by rewrite Hh3, Hh2).
  destruct (wf_hidden _ _ Hwf3 _ _ Hh) as (p & Hp & Hobj).
  exists s3, id, p. split_and!; try done.
  - eexists _, _. split; [exact Hk3|]. simpl. split; [done|set_solver].
  - intros h Hne. by rewrite Hro, Hst2, Hso.
  - intros o' Hne. by rewrite Hh3, Hh2, Hho.
  - intros h0 Hh0.
    destruct (saveToStorage_cases s o Hwf) as [(id0 & Ho & Heq)|(Ho & _)];
      [|congruence].
    rewrite Heq in Hsave. injection Hsave as <- <-. split; [congruence|].
    by rewrite Hn3, Hn2.
  - intros Hnone. destruct (Hfresh Hnone) as [-> Hn]. split; [done|].
    by rewrite Hn3, Hn2.
Qed.

(** X3. In every reachable state [add] returns a handle and raises nothing,
    whichever branch it takes. Afterwards [get] retrieves the object under
    the returned handle, the handle is at least 1, its count is at least 1
    and an owner record with the given context id holds it. *)
Theorem add_registers_the_object (cs : list call) (w : WebContents) (ctx : string)
    (o : obj) :
  ∃ s' h, add (run cs) w ctx o = (s', Return h) ∧
    get s' h = Some o ∧ 1 ≤ h ∧ 1 ≤ refcount s' h ∧
    ∃ k ow, owners s' !! k = Some ow ∧ contextId ow = ctx ∧ h ∈ storageSet ow.
Proof.
  destruct (add_effect (run cs) w ctx o (run_wf cs))
    as (s' & h & p & Hadd & Hwf' & Hp & Hobj & Hheld & _).
  exists s', h. split_and!; [done| | | |done].
  - unfold get. by rewrite Hp, <- Hobj.
  - destruct (wf_storage _ _ Hwf' _ _ Hp) as (? & _). lia.
  - unfold refcount. rewrite Hp. by eapply wf_count.
Qed.

(** X4. [add] hands out the handle the object already has, allocating
    nothing, and otherwise the next counter value, which is greater than
    every handle returned before; in both cases no other entry of the store
    and no other object's hidden value changes. *)
Theorem add_reuses_or_allocates (cs : list call) (w : WebContents) (ctx : string)
    (o : obj) :
  ∃ s' h, add (run cs) w ctx o = (s', Return h) ∧
    (∀ h0, hidden (run cs) !! o = Some h0 → h = h0 ∧ nextId s' = nextId (run cs)) ∧
    (hidden (run cs) !! o = None →
       h = nextId (run cs) + 1 ∧ nextId s' = h ∧ get (run cs) h = None ∧
       Forall (λ r, r < h) (returned cs)) ∧
    (∀ h', h' ≠ h → storage s' !! h' = storage (run cs) !! h') ∧
    (∀ o', o' ≠ o → hidden s' !! o' = hidden (run cs) !! o').
Proof.
  pose proof (run_wf cs) as Hwf.
  destruct (add_effect (run cs) w ctx o Hwf)
    as (s' & h & p & Hadd & _ & _ & _ & _ & Hso & Hho & Hold & Hnew).
  exists s', h. split_and!; [done..| |done|done].
  intros Hnone. destruct (Hnew Hnone) as [-> Hn]. split_and!; [done..| |].
  - unfold get. destruct (storage (run cs) !! (nextId (run cs) + 1)) as [q|] eqn:Hq;
      [|done].
    destruct (wf_storage _ _ Hwf _ _ Hq) as (? & _). lia.
  - destruct (returned_from_bound cs constructor constructor_wf) as [Hall _].
    fold (run cs) in Hall. eapply Forall_impl; [exact Hall|]. simpl. intros; lia.
Qed.

Lemma add_reuses_or_allocates_witness :
  ∃ s' h, add (run [Add (E1 10) "ctxA" objX]) (E2 11) "ctxB" objX = (s', Return h) ∧
          h = 1 ∧ nextId s' = 1.
Proof.
  destruct (add_reuses_or_allocates [Add (E1 10) "ctxA" objX] (E2 11) "ctxB" objX)
    as (s' & h & Hadd & Hold & _).
  destruct (Hold 1 ltac:(by vm_compute)) as [-> Hn].
  exists s', 1. split_and!; [exact Hadd|reflexivity|exact Hn].
Defined.

(** ** Registering and releasing *)

(** Outside the branch of lines 52-58 the count of the returned handle grows
    by one exactly when the caller's record did not hold it. *)
Lemma add_plain_count s w ctx o s' id :
  wf s → reconciles s w ctx = false → add s w ctx o = (s', Return id) →
  refcount s' id
  = refcount s id + ind (negb (held_by (owners s) (ownerKeyOf w) id)).
Proof.
  intros Hwf Hrec Hadd. unfold add in Hadd.
  destruct (saveToStorage s o) as [s1 id1] eqn:Hsave.
  destruct (saveToStorage_spec _ _ _ _ Hwf Hsave)
    as (Hwf1 & Hh1 & Hst1 & Ho1 & Hc1 & _ & _ & _ & Hrc1).
  rewrite getOwnerKey_webContents in Hadd.
  destruct (resolveOwner s1 w (ownerKeyOf w) ctx) as [s2 key] eqn:Hres.
  destruct (resolveOwner_spec _ _ _ _ _ _ _ Hres Hwf1)
    as (Hwf2 & _ & Hst2 & _ & ow & Hkey & _).
  assert (reconciles s1 w ctx = false) as Hrec1
    by (unfold reconciles; by rewrite Ho1, Hc1).
  destruct (resolveOwner_plain _ _ _ _ _ Hrec1 Hres) as (-> & _ & Hheld2 & _).
  rewrite <- Hst2 in Hst1.
  destruct (reference_spec _ _ _ _ Hwf2 Hkey Hst1)
    as (s3 & Href & _ & _ & _ & _ & _ & _ & _ & Hdelta).
  rewrite Href in Hadd. injection Hadd as <- <-.
  destruct (Hdelta id1) as [Hr _]. rewrite Hr.
  rewrite bool_decide_eq_true_2 by done. simpl.
  rewrite Hheld2, Ho1, <- Hrc1. unfold refcount. by rewrite Hst2.
Qed.

(** X5. When the caller's record does not yet hold the object's handle and
    no process swap is being reconciled, [add] followed by [remove] of the
    returned handle with the same WebContents and context id leaves the
    handle store and the hidden values exactly as they were before the two
    calls: a new object is forgotten again, a known one gets its count
    back. *)
Theorem add_then_remove_restores_store (cs : list call) (w : WebContents)
    (ctx : string) (o : obj) :
  reconciles (run cs) w ctx = false →
  (∀ h0, hidden (run cs) !! o = Some h0 →
         held_by (owners (run cs)) (ownerKeyOf w) h0 = false) →
  ∃ s1 h, add (run cs) w ctx o = (s1, Return h) ∧
    storage (remove s1 w ctx h) = storage (run cs) ∧
    hidden (remove s1 w ctx h) = hidden (run cs).
Proof.
  intros Hrec Hunheld. pose proof (run_wf cs) as Hwf.
  destruct (add_effect (run cs) w ctx o Hwf)
    as (s1 & h & p1 & Hadd & Hwf1 & Hp1 & Hobj1 & _ & Hso & Hho & Hold & Hnew).
  destruct (add_plain (run cs) w ctx o Hwf Hrec)
    as (s1' & h' & Hadd' & _ & Hh1 & _ & (ow & Hk & Hctx & Hin) & _).
  rewrite Hadd in Hadd'. injection Hadd' as <- <-.
  pose proof (add_plain_count _ _ _ _ _ _ Hwf Hrec Hadd) as Hcount.
  assert (held_by (owners (run cs)) (ownerKeyOf w) h = false) as Hnot.
  { destruct (hidden (run cs) !! o) as [h0|] eqn:Ho.
    - destruct (Hold h0 eq_refl) as [-> _]. by apply Hunheld.
    - destruct (Hnew eq_refl) as [-> _].
      destruct (held_by _ _ _) eqn:Hheld; [|done].
      apply (wf_owners _ _ Hwf) in Hheld. lia. }
  rewrite Hnot in Hcount. simpl in Hcount.
  unfold refcount in Hcount. rewrite Hp1 in Hcount.
  exists s1, h. split; [done|].
  rewrite (remove_accepted_eq _ _ _ _ _ Hk Hctx).
  set (s1' := set_owners _ s1).
  assert (storage s1' !! h = Some p1) as Hp1' by done.
  destruct (storage (run cs) !! h) as [p|] eqn:Hp.
  - (* the object was registered: its entry gets its count back *)
    pose proof (wf_count _ _ _ Hwf Hp) as Hpos.
    assert (object p = o) as Hobj.
    { destruct (hidden (run cs) !! o) as [h0|] eqn:Ho.
      - destruct (Hold h0 eq_refl) as [-> _].
        destruct (wf_hidden _ _ Hwf _ _ Ho) as (q & Hq & Hqo). congruence.
      - destruct (Hnew eq_refl) as [-> _].
        destruct (wf_storage _ _ Hwf _ _ Hp) as (? & _). lia. }
    unfold dereference. rewrite Hp1'. rewrite bool_decide_eq_false_2 by lia.
    simpl. split.
    + apply map_eq. intros h'. destruct (decide (h' = h)) as [->|Hne].
      * rewrite lookup_insert_eq, Hp. destruct p as [po pc]. simpl in *.
        f_equal. f_equal; [congruence|lia].
      * rewrite lookup_insert_ne by done. by apply Hso.
    + apply map_eq. intros o'. destruct (decide (o' = o)) as [->|Hne].
      * rewrite Hh1. destruct (wf_storage _ _ Hwf _ _ Hp) as (_ & Hh & _).
        by rewrite <- Hobj.
      * by apply Hho.
  - (* the object was new: entry and hidden value are deleted again *)
    assert (hidden (run cs) !! o = None) as Ho.
    { destruct (hidden (run cs) !! o) as [h0|] eqn:Ho; [|done].
      destruct (Hold h0 eq_refl) as [-> _].
      destruct (wf_hidden _ _ Hwf _ _ Ho) as (q & Hq & _). congruence. }
    unfold dereference. rewrite Hp1'. rewrite bool_decide_eq_true_2 by lia.
    simpl. rewrite Hobj1. split.
    + apply map_eq. intros h'. destruct (decide (h' = h)) as [->|Hne].
      * by rewrite lookup_delete_eq.
      * rewrite lookup_delete_ne by done. by apply Hso.
    + apply map_eq. intros o'. destruct (decide (o' = o)) as [->|Hne].
      * by rewrite lookup_delete_eq.
      * rewrite lookup_delete_ne by done. by apply Hho.
Qed.

Lemma add_then_remove_restores_store_witness :
  ∃ s1 h, add (run [Add (E1 10) "ctxA" objX]) (E2 11) "ctxB" objX = (s1, Return h) ∧
    storage (remove s1 (E2 11) "ctxB" h) = storage (run [Add (E1 10) "ctxA" objX]).
Proof.
  destruct (add_then_remove_restores_store [Add (E1 10) "ctxA" objX]
              (E2 11) "ctxB" objX) as (s1 & h & Hadd & Hst & _).
  - by vm_compute.
  - intros h0 _. by vm_compute.
  - exists s1, h. split; [exact Hadd|exact Hst].
Defined.

(** ** clear *)

(** X6. Clearing the same owner and context id a second time changes
    nothing; and in every reachable state [clear] creates no entry and
    raises no count. *)
Theorem clear_is_idempotent (cs : list call) (k ctx : string) :
  clear (clear (run cs) k ctx) k ctx = clear (run cs) k ctx ∧
  ∀ h, refcount (clear (run cs) k ctx) h ≤ refcount (run cs) h ∧
       (get (run cs) h = None → get (clear (run cs) k ctx) h = None).
Proof.
  pose proof (run_wf cs) as Hwf. split.
  - unfold clear at 2 3. destruct (owners (run cs) !! k) as [ow|] eqn:Hk.
    + case_bool_decide as Hctx.
      * unfold clear. rewrite Hk. by rewrite bool_decide_eq_true_2.
      * apply clear_unknown. simpl. apply lookup_delete_eq.
    + by apply clear_unknown.
  - intros h. destruct (clear_delta (run cs) k ctx h Hwf) as (d & Hr & _). split.
    + rewrite Hr. unfold refcount.
      destruct (storage (run cs) !! h) as [p|] eqn:Hp; destruct d; simpl; try lia;
        pose proof (wf_count _ _ _ Hwf Hp); lia.
    + unfold get. intros Hnone.
      destruct (storage (run cs) !! h) as [p|] eqn:Hp; [done|].
      unfold refcount in Hr. rewrite Hp in Hr.
      destruct (storage (clear (run cs) k ctx) !! h) as [q|] eqn:Hq; [|done].
      pose proof (wf_count _ _ _ (clear_wf _ k ctx Hwf) Hq). destruct d; simpl in *; lia.
Qed.

(** ** Runs of the public interface *)

(** X7. Along add, remove and clear calls alone (no notification), the count
    of a handle never exceeds the number of owner records that hold it: a
    handle nobody holds has no entry. *)
Theorem count_never_exceeds_holders (cs : list call) :
  Forall is_api cs →
  ∀ h, refcount (run cs) h ≤ Z.of_nat (holders (run cs) h) ∧
       (holders (run cs) h = 0%nat → get (run cs) h = None).
Proof.
  intros Hapi h.
  assert (∀ i, refcount constructor i ≤ Z.of_nat (holders constructor i)) as H0
    by (intros i; rewrite constructor_counts; lia).
  pose proof (api_run_le cs constructor constructor_wf eq_refl Hapi H0 h) as Hle.
  fold (run cs) in Hle. split; [done|].
  intros Hnone. unfold get. destruct (storage (run cs) !! h) as [p|] eqn:Hp; [|done].
  pose proof (wf_count _ _ _ (run_wf cs) Hp). unfold refcount in Hle.
  rewrite Hp, Hnone in Hle. lia.
Qed.

Lemma count_never_exceeds_holders_witness :
  refcount (run double_release) 1 ≤ Z.of_nat (holders (run double_release) 1).
Proof.
  exact (proj1 (count_never_exceeds_holders double_release
                  ltac:(repeat constructor) 1)).
Defined.

(** ** Notifications *)

Lemma call_listener_unconcerned l e s :
  l_event l ≠ name_of e ∨ l_processId l ≠ event_process e →
  call_listener l e s = (s, Return ()).
Proof.
  unfold call_listener, deleteListener, processChangeListener.
  destruct (l_event l), e; simpl; intros [H|H]; try done;
    by rewrite bool_decide_eq_false_2.
Qed.

Lemma call_listeners_unconcerned ls e s :
  Forall (λ l, l_event l ≠ name_of e ∨ l_processId l ≠ event_process e) ls →
  call_listeners ls e s = (s, Return ()).
Proof.
  induction 1 as [|l ls Hl _ IH]; simpl; [done|].
  by rewrite call_listener_unconcerned.
Qed.

(** X8. A notification about a process id under which no listener of that
    WebContents subscribed for that event changes nothing and raises
    nothing. *)
Theorem unrelated_notification_is_ignored (s : ObjectsRegistry) (emitter : Z)
    (e : event) :
  (∀ l, l ∈ listeners s → ¬ concerned l emitter e) →
  emit s emitter e = (s, Return ()).
Proof.
  intros Hnone. unfold emit. apply call_listeners_unconcerned.
  apply Forall_forall. intros l [[Hem Hev] Hl]%list_elem_of_filter.
  destruct (decide (l_processId l = event_process e)) as [Hpid|Hpid]; [|by right].
  destruct (Hnone l Hl). by split_and!.
Qed.

Lemma unrelated_notification_is_ignored_witness :
  emit (run [Add (E1 10) "ctxA" objX]) 1 (render_view_deleted 11)
  = (run [Add (E1 10) "ctxA" objX], Return ()).
Proof.
  apply (unrelated_notification_is_ignored (run [Add (E1 10) "ctxA" objX]) 1
           (render_view_deleted 11)).
  intros l Hl (_ & _ & Hpid). vm_compute in Hl.
  repeat (apply elem_of_cons in Hl as [->|Hl]; [by vm_compute in Hpid|]).
  by apply elem_of_nil in Hl.
Defined.

(** ** The destruction notification *)

Lemma clear_listeners s k ctx : listeners (clear s k ctx) = listeners s.
Proof.
  unfold clear. destruct (owners s !! k) as [ow|]; [|done].
  case_bool_decide; [done|]. simpl.
  by destruct (dereference_all_frame (elements (storageSet ow)) s)
    as (_ & _ & _ & -> & _).
Qed.

Lemma clear_owners_shrink s k ctx k' ow :
  owners (clear s k ctx) !! k' = Some ow → owners s !! k' = Some ow.
Proof.
  unfold clear. destruct (owners s !! k) as [ow0|] eqn:Hk; [|done].
  case_bool_decide; [done|]. simpl.
  destruct (dereference_all_frame (elements (storageSet ow0)) s) as (_ & -> & _).
  intros Hd. by apply lookup_delete_Some in Hd as [_ Hd].
Qed.

Lemma clear_no_record s k ctx : no_record (clear s k ctx) k ctx.
Proof.
  unfold clear, no_record. destruct (owners s !! k) as [ow0|] eqn:Hk.
  - case_bool_decide as Hctx.
    + intros ow. rewrite Hk. by intros [= <-].
    + simpl. intros ow.
      destruct (dereference_all_frame (elements (storageSet ow0)) s) as (_ & -> & _).
      by rewrite lookup_delete_eq.
  - intros ow. by rewrite Hk.
Qed.

(** The loop of an emission of render-view-deleted: it raises nothing, owner
    records and listeners only disappear, and every listener whose process
    test passes has cleared its owner and removed itself. *)
Lemma deleted_loop ls pid : ∀ s,
  ∃ s', call_listeners ls (render_view_deleted pid) s = (s', Return ()) ∧
    (∀ k ow, owners s' !! k = Some ow → owners s !! k = Some ow) ∧
    (∀ x, x ∈ listeners s' → x ∈ listeners s) ∧
    ∀ l, l ∈ ls → l_event l = RenderViewDeleted → l_processId l = pid →
      no_record s' (l_ownerKey l) (l_contextId l) ∧
      ∀ x, x ∈ listeners s' → l_closure x ≠ l_closure l.
Proof.
  induction ls as [|l ls IH]; intros s; simpl.
  - exists s. split_and!; try done. intros l Hl. by apply elem_of_nil in Hl.
  - unfold call_listener.
    destruct (l_event l) eqn:Hev; simpl.
    + destruct (IH (deleteListener l pid s)) as (s' & -> & Hown & Hlis & Hdone).
      exists s'. split; [done|].
      assert ((∀ k ow, owners (deleteListener l pid s) !! k = Some ow →
                       owners s !! k = Some ow) ∧
              (∀ x, x ∈ listeners (deleteListener l pid s) → x ∈ listeners s) ∧
              (l_processId l = pid →
               no_record (deleteListener l pid s) (l_ownerKey l) (l_contextId l) ∧
               ∀ x, x ∈ listeners (deleteListener l pid s) →
                    l_closure x ≠ l_closure l)) as (Hown1 & Hlis1 & Hl1).
      { unfold deleteListener. case_bool_decide as Hpid.
        - split_and!.
          + intros k ow H. by apply clear_owners_shrink in H.
          + intros x. rewrite clear_listeners. simpl.
            by intros [_ ?]%list_elem_of_filter.
          + intros _. split; [apply clear_no_record|].
            intros x. rewrite clear_listeners. simpl.
            by intros [? _]%list_elem_of_filter.
        - split_and!; done. }
      split_and!; [by auto..|].
      intros l' [->|Hl']%elem_of_cons Hev' Hpid'; [|by apply Hdone].
      destruct (Hl1 Hpid') as [Hnr Hcl]. split.
      * intros ow Hk. by apply Hnr, Hown.
      * intros x Hx. by apply Hcl, Hlis.
    + destruct (IH s) as (s' & -> & Hown & Hlis & Hdone).
      exists s'. split_and!; try done.
      intros l' [->|Hl']%elem_of_cons Hev' Hpid'; [congruence|by apply Hdone].
Qed.



Lemma clear_refcount s k ow h :
  wf s → owners s !! k = Some ow →
  refcount (clear s k (contextId ow)) h
  = Z.max 0 (refcount s h - ind (bool_decide (h ∈ storageSet ow))).
Proof.
  intros Hwf Hk. rewrite (clear_match _ _ _ Hk).
  change (refcount (foldl dereference s (elements (storageSet ow))) h
          = Z.max 0 (refcount s h - ind (bool_decide (h ∈ storageSet ow)))).
  rewrite dereference_all_refcount by (done || apply NoDup_elements).
  do 3 f_equal. apply bool_decide_ext, elem_of_elements.
Qed.

Lemma refcount_0_absent s h : wf s → refcount s h = 0 → get s h = None.
Proof.
  intros Hwf. unfold refcount, get.
  destruct (storage s !! h) as [p|] eqn:Hp; [|done].
  pose proof (wf_count _ _ _ Hwf Hp). lia.
Qed.

Lemma clear_sole_reference s k c key ctx h :
  wf s → sole_reference s key ctx h → sole_reference (clear s k c) key ctx h.
Proof.
  intros Hwf Hsole. pose proof (clear_wf s k c Hwf) as Hwf'.
  destruct (owners s !! k) as [ow|] eqn:Hk; [|by rewrite clear_unknown].
  destruct (decide (contextId ow = c)) as [<-|Hc];
    [|by rewrite (clear_mismatch _ _ _ _ Hk)].
  pose proof (clear_refcount s k ow h Hwf Hk) as Hr.
  destruct Hsole as [Hnone|(Hone & ow0 & Hkey & Hctx & Hin)].
  - left. apply refcount_0_absent; [done|]. rewrite Hr.
    unfold get, refcount in *. destruct (storage s !! h); [done|].
    destruct (bool_decide _); simpl; lia.
  - rewrite Hone in Hr. case_bool_decide as Hmem; simpl in Hr.
    + left. by apply refcount_0_absent.
    + right. split; [lia|]. exists ow0. split; [|done].
      rewrite (clear_match _ _ _ Hk). simpl.
      destruct (dereference_all_frame (elements (storageSet ow)) s) as (_ & -> & _).
      rewrite lookup_delete_ne; [done|]. intros ->. congruence.
Qed.

Lemma deleted_loop_sole_reference ls pid key ctx h : ∀ s,
  wf s → sole_reference s key ctx h →
  sole_reference (call_listeners ls (render_view_deleted pid) s).1 key ctx h.
Proof.
  induction ls as [|l ls IH]; intros s Hwf Hsole; simpl; [done|].
  pose proof (call_listener_wf l (render_view_deleted pid) s Hwf) as Hwf1.
  assert (sole_reference (call_listener l (render_view_deleted pid) s).1 key ctx h)
    as Hsole1.
  { unfold call_listener. destruct (l_event l); simpl; [|done].
    unfold deleteListener. case_bool_decide; [|done].
    apply clear_sole_reference; [by apply removeListener_wf|done]. }
  destruct (call_listener l (render_view_deleted pid) s) as [s1 [[]|]];
    simpl in *; [by apply IH|done].
Qed.

(** X10. When a WebContents without owner record registers an object that
    has no handle and the destruction of its process is notified next, the
    owner record created by [add] is deleted and the object's entry is
    freed: [get] no longer retrieves it. *)
Theorem destruction_frees_first_registration (cs : list call) (w : WebContents)
    (ctx : string) (o : obj) :
  owners (run cs) !! ownerKeyOf w = None →
  hidden (run cs) !! o = None →
  ∃ s1 h s2,
    add (run cs) w ctx o = (s1, Return h) ∧ get s1 h = Some o ∧
    emit s1 (wc_id w) (render_view_deleted (wc_processId w)) = (s2, Return ()) ∧
    owners s2 !! ownerKeyOf w = None ∧ get s2 h = None.
Proof.
  intros Hk Ho. pose proof (run_wf cs) as Hwf.
  destruct (add_returns (run cs) w ctx o Hwf) as (s1 & h & Hadd & Hwf1 & _).
  pose proof Hadd as Hexp.
  rewrite (add_new_owner _ _ _ _ _ _ {| object := o; count := 0 |}
             (saveToStorage_fresh _ _ Ho) Hk) in Hexp
    by apply lookup_insert_eq.
  injection Hexp as Hs1 Hh.
  assert (owners s1 !! ownerKeyOf w
          = Some {| contextId := ctx; storageSet := {[h]} |}) as Hk1.
  { rewrite <- Hs1, <- Hh. simpl. apply lookup_insert_eq. }
  assert (storage s1 !! h = Some {| object := o; count := 1 |}) as Hp1.
  { rewrite <- Hs1, <- Hh. simpl. apply lookup_insert_eq. }
  set (D := {| l_closure := closures (run cs); l_event := RenderViewDeleted;
               l_emitter := wc_id w; l_ownerKey := ownerKeyOf w;
               l_contextId := ctx; l_processId := wc_processId w |}).
  assert (D ∈ listeners s1) as HD.
  { rewrite <- Hs1. simpl. set_solver. }
  destruct (deleted_loop
              (filter (λ l, l_emitter l = wc_id w
                            ∧ l_event l = name_of (render_view_deleted (wc_processId w)))
                 (listeners s1)) (wc_processId w) s1)
    as (s2 & Hemit & Hown & _ & Hdone).
  pose proof (deleted_loop_sole_reference
                (filter (λ l, l_emitter l = wc_id w
                              ∧ l_event l = name_of (render_view_deleted (wc_processId w)))
                   (listeners s1)) (wc_processId w) (ownerKeyOf w) ctx h s1 Hwf1) as Hsole.
  rewrite Hemit in Hsole. simpl in Hsole.
  destruct (Hdone D) as [Hnr _]; [by apply list_elem_of_filter|done..|].
  exists s1, h, s2. split_and!; [done| |done| |].
  - unfold get. by rewrite Hp1.
  - destruct (owners s2 !! ownerKeyOf w) as [ow|] eqn:Hk2; [|done].
    pose proof (Hown _ _ Hk2) as Hsame. rewrite Hk1 in Hsame.
    injection Hsame as <-. by destruct (Hnr _ Hk2).
  - destruct Hsole as [Hnone|(_ & ow & Hk2 & Hctx & _)]; [|done|].
    + right. split; [unfold refcount; by rewrite Hp1|].
      eexists. split; [exact Hk1|]. simpl. split; [done|set_solver].
    + by destruct (Hnr _ Hk2).
Qed.

Lemma destruction_frees_first_registration_witness :
  ∃ s1 h s2,
    add (run [Add (E1 10) "ctxA" objX]) (E2 11) "ctxB" objY = (s1, Return h) ∧
    emit s1 2 (render_view_deleted 11) = (s2, Return ()) ∧ get s2 h = None.
Proof.
  destruct (destruction_frees_first_registration [Add (E1 10) "ctxA" objX]
              (E2 11) "ctxB" objY) as (s1 & h & s2 & Hadd & _ & Hemit & _ & Hget).
  - by vm_compute.
  - by vm_compute.
  - exists s1, h, s2. split_and!; [exact Hadd|exact Hemit|exact Hget].
Defined.

(** ** The process-swap notification *)

Lemma changed_loop ls old new : ∀ s,
  let s' := (call_listeners ls (render_frame_changed old new) s).1 in
  nextId s' = nextId s ∧ storage s' = storage s ∧ owners s' = owners s ∧
  hidden s' = hidden s ∧
  (∀ x, x ∈ listeners s' → x ∈ listeners s) ∧
  (∀ c en, contexts s' !! c = Some en →
     contexts s !! c = Some en ∨ newOwnerKey en = "undefined-" +:+ pretty new) ∧
  (new = 0 → s' = s).
Proof.
  induction ls as [|l ls IH]; intros s; simpl; [by auto 10|].
  unfold call_listener. destruct (l_event l); simpl; [apply IH|].
  unfold processChangeListener. case_bool_decide; [|apply IH].
  destruct (owners s !! l_ownerKey l) as [ow|]; [|apply IH].
  destruct (decide (new = 0)) as [->|Hnew].
  - rewrite getOwnerKey_number_0. simpl. by auto 10.
  - rewrite getOwnerKey_number by done.
    destruct (IH (removeListener l
                    (set_contexts
                       <[l_contextId l := {| oldOwnerKey := l_ownerKey l;
                                             newOwnerKey := "undefined-" +:+ pretty new |}]>
                       s))) as (Hn & Hst & Ho & Hh & Hl & Hc & _).
    split_and!; try done.
    + intros x Hx. apply Hl in Hx. simpl in Hx.
      by apply list_elem_of_filter in Hx as [_ ?].
    + intros c en Hen. destruct (Hc c en Hen) as [Hold|?]; [|by right].
      simpl in Hold. destruct (decide (c = l_contextId l)) as [->|Hne].
      * rewrite lookup_insert_eq in Hold. injection Hold as <-. by right.
      * rewrite lookup_insert_ne in Hold by done. by left.
Qed.

(** X11. A render-frame-changed notification never touches the handle store,
    the owner records or the hidden values, whatever listeners it reaches:
    it only removes listeners and writes migration entries, and every entry
    it writes has the new owner key "undefined-" followed by the new process
    id. With new process id 0 it changes nothing at all. *)
Theorem swap_notification_frame (s : ObjectsRegistry) (emitter old new : Z) :
  nextId (emit s emitter (render_frame_changed old new)).1 = nextId s ∧
  storage (emit s emitter (render_frame_changed old new)).1 = storage s ∧
  owners (emit s emitter (render_frame_changed old new)).1 = owners s ∧
  hidden (emit s emitter (render_frame_changed old new)).1 = hidden s ∧
  (∀ x, x ∈ listeners (emit s emitter (render_frame_changed old new)).1 →
        x ∈ listeners s) ∧
  (∀ c en, contexts (emit s emitter (render_frame_changed old new)).1 !! c = Some en →
     contexts s !! c = Some en ∨ newOwnerKey en = "undefined-" +:+ pretty new) ∧
  (new = 0 → (emit s emitter (render_frame_changed old new)).1 = s).
Proof. unfold emit. apply changed_loop. Qed.

(** ** A registration under a new context id without process swap *)

(** X12. When the record of the WebContents has another context id and no
    process swap is being reconciled (lines 59-63), [add] keeps the record
    under its key and all the handles of its set, replaces its context id
    and adds the returned handle; the counts of the handles held before are
    not changed, and a [remove] that still names the old context id is
    ignored from then on. *)
Theorem reload_keeps_handles (cs : list call) (w : WebContents) (ctx : string)
    (o : obj) (ow : owner) :
  owners (run cs) !! ownerKeyOf w = Some ow →
  contextId ow ≠ ctx →
  reconciles (run cs) w ctx = false →
  ∃ s' h, add (run cs) w ctx o = (s', Return h) ∧
    owners s' !! ownerKeyOf w
      = Some {| contextId := ctx; storageSet := {[h]} ∪ storageSet ow |} ∧
    (∀ k, k ≠ ownerKeyOf w → owners s' !! k = owners (run cs) !! k) ∧
    (∀ h0, h0 ≠ h → storage s' !! h0 = storage (run cs) !! h0) ∧
    (∀ h0, remove s' w (contextId ow) h0 = s').
Proof.
  intros Hk Hctx Hrec. pose proof (run_wf cs) as Hwf.
  destruct (add_effect (run cs) w ctx o Hwf)
    as (s' & h & p & Hadd & _ & _ & _ & _ & Hso & _).
  exists s', h. split; [done|].
  unfold add in Hadd.
  destruct (saveToStorage (run cs) o) as [s1 id] eqn:Hsave.
  destruct (saveToStorage_spec _ _ _ _ Hwf Hsave)
    as (Hwf1 & _ & Hst1 & Ho1 & Hc1 & _).
  rewrite getOwnerKey_webContents in Hadd.
  assert (resolveOwner s1 w (ownerKeyOf w) ctx
          = (registerBoth w (ownerKeyOf w) ctx
               (set_owners <[ownerKeyOf w := {| contextId := ctx;
                                                storageSet := storageSet ow |}]> s1),
             ownerKeyOf w)) as Hres.
  { unfold resolveOwner. rewrite Ho1, Hk, Hc1.
    rewrite bool_decide_eq_true_2 by done.
    unfold reconciles in Hrec. rewrite Hk in Hrec.
    rewrite bool_decide_eq_true_2 in Hrec by done. simpl in Hrec.
    destruct (contexts (run cs) !! contextId ow) as [c|]; [|done].
    by rewrite Hrec. }
  rewrite Hres in Hadd.
  destruct (resolveOwner_spec _ _ _ _ _ _ _ Hres Hwf1) as (Hwf2 & _ & Hst2 & _).
  rewrite <- Hst2 in Hst1.
  edestruct (reference_spec _ (ownerKeyOf w) id
               {| contextId := ctx; storageSet := storageSet ow |} Hwf2)
    as (s3 & Href & _ & _ & _ & _ & Hk3 & Hother & _); [|exact Hst1|].
  { simpl. apply lookup_insert_eq. }
  rewrite Href in Hadd. injection Hadd as <- <-. simpl in Hk3.
  split_and!; [done| |done|].
  - intros k Hne. rewrite (Hother k Hne). simpl. rewrite Ho1.
    by rewrite lookup_insert_ne.
  - intros h0. apply remove_rejected. unfold remove_accepted. rewrite Hk3. simpl.
    by apply bool_decide_eq_false.
Qed.

Lemma reload_keeps_handles_witness :
  ∃ s' h, add (run [Add (E1 10) "ctxA" objX]) (E1 10) "ctxB" objY = (s', Return h) ∧
    owners s' !! "1-10" = Some {| contextId := "ctxB"; storageSet := {[h]} ∪ {[1]} |}.
Proof.
  destruct (reload_keeps_handles [Add (E1 10) "ctxA" objX] (E1 10) "ctxB" objY
              {| contextId := "ctxA"; storageSet := {[1]} |})
    as (s' & h & Hadd & Hk & _).
  - by vm_compute.
  - done.
  - by vm_compute.
  - exists s', h. split; [exact Hadd|exact Hk].
Defined.

(** ** Owner records and their destruction listeners *)

Lemma subscribed_tables s s' :
  listeners s' = listeners s → closures s' = closures s →
  (∀ k ow', owners s' !! k = Some ow' →
     ∃ ow, owners s !! k = Some ow ∧ contextId ow = contextId ow') →
  subscribed s → subscribed s'.
Proof.
  intros Hl Hc Ho (Hg & Hd & Hb). unfold subscribed, guarded. rewrite Hl, Hc.
  split_and!; [|done..].
  intros k ow' Hk. destruct (Ho _ _ Hk) as (ow & Hk0 & <-). by apply Hg.
Qed.

Lemma subscribed_register s w key ctx set0 (g : gmap string context → gmap string context) :
  subscribed s →
  subscribed
    (registerBoth w key ctx
       (set_contexts g
          (set_owners <[key := {| contextId := ctx; storageSet := set0 |}]> s))).
Proof.
  intros (Hg & Hd & Hb). unfold subscribed, guarded. simpl. split_and!.
  - intros k ow Hk. destruct (decide (k = key)) as [->|Hne].
    + rewrite lookup_insert_eq in Hk. injection Hk as <-.
      exists {| l_closure := closures s; l_event := RenderViewDeleted;
                l_emitter := wc_id w; l_ownerKey := key; l_contextId := ctx;
                l_processId := wc_processId w |}.
      split; [set_solver|done].
    + rewrite lookup_insert_ne in Hk by done.
      destruct (Hg _ _ Hk) as (l & Hl & ?). exists l. split; [set_solver|done].
  - intros l1 l2 Hl1 Hl2 Heq.
    rewrite !elem_of_app, !elem_of_cons, !elem_of_nil in Hl1, Hl2.
    destruct Hl1 as [[Hl1|[->|[]]]|[->|[]]], Hl2 as [[Hl2|[->|[]]]|[->|[]]];
      simpl in Heq; try done; try lia;
      try (apply Hb in Hl1; simpl in *; lia); try (apply Hb in Hl2; simpl in *; lia).
    by apply Hd.
  - intros l Hl. rewrite !elem_of_app, !elem_of_cons, !elem_of_nil in Hl.
    destruct Hl as [[Hl|[->|[]]]|[->|[]]]; simpl; try lia.
    apply Hb in Hl. lia.
Qed.

Lemma saveToStorage_frame s o :
  owners (saveToStorage s o).1 = owners s ∧
  listeners (saveToStorage s o).1 = listeners s ∧
  closures (saveToStorage s o).1 = closures s.
Proof.
  unfold saveToStorage. destruct (hidden s !! o); [|done]. by case_bool_decide.
Qed.

Lemma add_subscribed s w ctx o : subscribed s → subscribed (add s w ctx o).1.
Proof.
  intros Hs. unfold add. destruct (saveToStorage_frame s o) as (Ho & Hl & Hc).
  destruct (saveToStorage s o) as [s1 id]. simpl in Ho, Hl, Hc.
  assert (subscribed s1) as Hs1.
  { apply (subscribed_tables s); [done..| |done]. rewrite Ho. eauto. }
  rewrite getOwnerKey_webContents.
  assert (subscribed (resolveOwner s1 w (ownerKeyOf w) ctx).1) as Hs2.
  { unfold resolveOwner. destruct (owners s1 !! ownerKeyOf w) as [ow|].
    - case_bool_decide; [|done].
      destruct (contexts s1 !! contextId ow) as [c|];
        [case_bool_decide|]; simpl;
        first [ by apply (subscribed_register _ _ _ _ _ (delete ctx))
              | by apply (subscribed_register _ _ _ _ _ (λ m, m)) ].
    - simpl. by apply (subscribed_register _ _ _ _ _ (λ m, m)). }
  destruct (resolveOwner s1 w (ownerKeyOf w) ctx) as [s2 key]. simpl in Hs2.
  unfold reference. destruct (owners s2 !! key) as [ow|] eqn:Hk; [|done].
  case_bool_decide; [done|]. simpl.
  destruct (storage s2 !! id); simpl;
    (apply (subscribed_tables s2); [done..| |done]);
    intros k ow'; simpl; (destruct (decide (k = key)) as [->|Hne];
      [rewrite lookup_insert_eq; intros [= <-]; eauto
      |rewrite lookup_insert_ne by done; eauto]).
Qed.

Lemma remove_subscribed s w ctx id : subscribed s → subscribed (remove s w ctx id).
Proof.
  intros Hs. unfold remove. rewrite getOwnerKey_webContents.
  destruct (owners s !! ownerKeyOf w) as [ow|] eqn:Hk; [|done].
  case_bool_decide; [|done].
  set (s1 := set_owners _ s).
  destruct (dereference_frame s1 id) as (_ & Ho & _ & Hl & Hc).
  apply (subscribed_tables s); [done..| |done].
  intros k ow'. rewrite Ho. simpl. destruct (decide (k = ownerKeyOf w)) as [->|Hne].
  - rewrite lookup_insert_eq. intros [= <-]. eauto.
  - rewrite lookup_insert_ne by done. eauto.
Qed.

Lemma clear_subscribed s k ctx : subscribed s → subscribed (clear s k ctx).
Proof.
  intros Hs. apply (subscribed_tables s); [apply clear_listeners| |
    intros k' ow' H; apply clear_owners_shrink in H; eauto|done].
  unfold clear. destruct (owners s !! k) as [ow|]; [|done].
  case_bool_decide; [done|]. simpl.
  by destruct (dereference_all_frame (elements (storageSet ow)) s)
    as (_ & _ & _ & _ & ->).
Qed.

(** One listener call during an emission that started with the listeners
    [L0]. *)
Lemma call_listener_subscribed L0 l e s :
  distinct_closures L0 → l ∈ L0 → (∀ x, x ∈ listeners s → x ∈ L0) →
  guarded s →
  guarded (call_listener l e s).1 ∧
  (∀ x, x ∈ listeners (call_listener l e s).1 → x ∈ listeners s) ∧
  closures (call_listener l e s).1 = closures s.
Proof.
  intros Hd Hl Hsub Hg.
  assert (∀ x, x ∈ listeners s → x ≠ l →
               x ∈ filter (λ l', l_closure l' ≠ l_closure l) (listeners s)) as Hkeep.
  { intros x Hx Hne. apply list_elem_of_filter. split; [|done].
    intros Heq. apply Hne, Hd; auto. }
  unfold call_listener. destruct (l_event l) eqn:Hev, e; simpl; try done.
  - unfold deleteListener. case_bool_decide; [|done]. split_and!.
    + intros k ow Hk.
      pose proof (clear_no_record (removeListener l s) (l_ownerKey l) (l_contextId l))
        as Hnr.
      pose proof (clear_owners_shrink _ _ _ _ _ Hk) as Hk0. simpl in Hk0.
      destruct (Hg _ _ Hk0) as (l' & Hl' & Hev' & Hkey' & Hctx').
      exists l'. rewrite clear_listeners. simpl. split; [|done].
      apply Hkeep; [done|]. intros ->. subst k. by apply (Hnr _ Hk).
    + intros x. rewrite clear_listeners. simpl.
      by intros [_ ?]%list_elem_of_filter.
    + unfold clear. simpl. destruct (owners s !! l_ownerKey l) as [ow|]; [|done].
      case_bool_decide; [done|]. simpl.
      by destruct (dereference_all_frame (elements (storageSet ow)) (removeListener l s))
        as (_ & _ & _ & _ & ->).
  - unfold processChangeListener. case_bool_decide; [|done].
    destruct (owners s !! l_ownerKey l); [|done].
    destruct (getOwnerKey _ _); [|done]. simpl. split_and!; [|
      by intros x [_ ?]%list_elem_of_filter|done].
    intros k ow Hk. destruct (Hg _ _ Hk) as (l' & Hl' & Hev' & Hrest).
    exists l'. split; [|done]. apply Hkeep; [done|]. intros ->. congruence.
Qed.

Lemma call_listeners_subscribed L0 ls e : ∀ s,
  distinct_closures L0 → (∀ l, l ∈ ls → l ∈ L0) →
  (∀ x, x ∈ listeners s → x ∈ L0) → guarded s →
  guarded (call_listeners ls e s).1 ∧
  (∀ x, x ∈ listeners (call_listeners ls e s).1 → x ∈ listeners s) ∧
  closures (call_listeners ls e s).1 = closures s.
Proof.
  induction ls as [|l ls IH]; intros s Hd Hls Hsub Hg; simpl; [done|].
  destruct (call_listener_subscribed L0 l e s Hd) as (Hg1 & Hl1 & Hc1);
    [apply Hls; set_solver|done..|].
  destruct (call_listener l e s) as [s1 [[]|]]; simpl in *; [|done].
  destruct (IH s1 Hd) as (Hg2 & Hl2 & Hc2); [intros; apply Hls; set_solver|auto..|].
  split_and!; [done|auto|congruence].
Qed.

Lemma step_subscribed s c : subscribed s → subscribed (step s c).1.
Proof.
  intros Hs. destruct c as [w ctx o|w ctx id|k ctx|em e]; simpl.
  - pose proof (add_subscribed s w ctx o Hs) as H.
    by destruct (add s w ctx o) as [s' [h|]].
  - by apply remove_subscribed.
  - by apply clear_subscribed.
  - destruct Hs as (Hg & Hd & Hb). unfold emit.
    destruct (call_listeners_subscribed (listeners s)
                (filter (λ l, l_emitter l = em ∧ l_event l = name_of e) (listeners s))
                e s Hd) as (Hg' & Hl' & Hc'); [|done..|].
    { intros l. by intros [_ ?]%list_elem_of_filter. }
    split_and!; [done| |].
    + intros l1 l2 H1 H2. apply Hd; auto.
    + intros l Hl. rewrite Hc'. auto.
Qed.

(** X13. In every state reached by calls and notifications, each owner
    record has a subscribed render-view-deleted listener that carries its
    owner key and its context id: no record is left that a destruction
    notification could not clear. *)
Theorem owner_records_are_guarded (cs : list call) (k : string) (ow : owner) :
  owners (run cs) !! k = Some ow →
  ∃ l, l ∈ listeners (run cs) ∧ l_event l = RenderViewDeleted ∧
       l_ownerKey l = k ∧ l_contextId l = contextId ow.
Proof.
  assert (∀ s, subscribed s → subscribed (run_from s cs)) as Hrun.
  { induction cs as [|c cs IH]; intros s Hs; [done|]. by apply IH, step_subscribed. }
  assert (subscribed constructor) as H0.
  { split_and!.
    - intros k' ow' Hk'. simpl in Hk'. by rewrite lookup_empty in Hk'.
    - intros l1 l2 Hl1. by apply elem_of_nil in Hl1.
    - intros l Hl. by apply elem_of_nil in Hl. }
  destruct (Hrun _ H0) as (Hg & _). apply Hg.
Qed.

Lemma owner_records_are_guarded_witness :
  ∃ l, l ∈ listeners (run overwritten_owner) ∧ l_event l = RenderViewDeleted ∧
       l_ownerKey l = "undefined-20" ∧ l_contextId l = "ctxC".
Proof.
  exact (owner_records_are_guarded overwritten_owner "undefined-20"
           {| contextId := "ctxC"; storageSet := {[2]} |} ltac:(by vm_compute)).
Defined.

(** ** What remove leaves alone *)

Lemma dereference_hidden s id o :
  hidden (dereference s id) !! o = hidden s !! o ∨
  (hidden (dereference s id) !! o = None ∧
   ∃ p, storage s !! id = Some p ∧ object p = o ∧ count p = 1).
Proof.
  unfold dereference. destruct (storage s !! id) as [p|] eqn:Hp; [|by left].
  case_bool_decide; simpl; [|by left].
  destruct (decide (o = object p)) as [->|Hne].
  - right. rewrite lookup_delete_eq. split; [done|]. exists p. split_and!; [done..|lia].
  - left. by rewrite lookup_delete_ne.
Qed.

Lemma remove_frame_storage s w ctx id :
  (∀ h, h ≠ id → storage (remove s w ctx id) !! h = storage s !! h) ∧
  nextId (remove s w ctx id) = nextId s.
Proof.
  split; [|apply remove_nextId].
  intros h Hne. unfold remove. rewrite getOwnerKey_webContents.
  destruct (owners s !! ownerKeyOf w); [|done]. case_bool_decide; [|done].
  rewrite dereference_storage. by case_decide.
Qed.

(** X14. Whatever its arguments, [remove] changes at most the entry of the
    named handle, the hidden value of the object of that entry (deleted
    when the count was 1) and the set of the caller's own record: no other
    handle, no other owner record, no migration entry, no listener and not
    the counter. *)
Theorem remove_frame (s : ObjectsRegistry) (w : WebContents) (ctx : string) (id : Z) :
  (∀ h, h ≠ id → storage (remove s w ctx id) !! h = storage s !! h) ∧
  (∀ k, k ≠ ownerKeyOf w → owners (remove s w ctx id) !! k = owners s !! k) ∧
  (∀ ow', owners (remove s w ctx id) !! ownerKeyOf w = Some ow' →
     ∃ ow, owners s !! ownerKeyOf w = Some ow ∧ contextId ow' = contextId ow ∧
           storageSet ow' ⊆ storageSet ow) ∧
  (∀ o, hidden (remove s w ctx id) !! o = hidden s !! o ∨
        (hidden (remove s w ctx id) !! o = None ∧
         ∃ p, storage s !! id = Some p ∧ object p = o ∧ count p = 1)) ∧
  contexts (remove s w ctx id) = contexts s ∧
  listeners (remove s w ctx id) = listeners s ∧
  nextId (remove s w ctx id) = nextId s.
Proof.
  destruct (remove_accepted s w ctx) eqn:Hacc.
  - unfold remove_accepted in Hacc.
    destruct (owners s !! ownerKeyOf w) as [ow|] eqn:Hk; [|done].
    apply bool_decide_eq_true in Hacc.
    rewrite (remove_accepted_eq _ _ _ _ _ Hk Hacc).
    set (s1 := set_owners _ s).
    destruct (dereference_frame s1 id) as (Hn & Ho & Hc & Hl & _).
    rewrite Hn, Ho, Hc, Hl. split_and!; try done.
    + intros h Hne. rewrite dereference_storage. by case_decide.
    + intros k Hne. simpl. by rewrite lookup_insert_ne.
    + intros ow'. simpl. rewrite lookup_insert_eq. intros [= <-].
      exists ow. simpl. split_and!; [done..|set_solver].
    + intros o. apply (dereference_hidden s1 id o).
  - rewrite remove_rejected by done. split_and!; try done; [|by left].
    intros ow' Hk. exists ow'. by split_and!.
Qed.

(** ** Only returned handles are retrievable *)

Lemma dereference_all_shrink l h : ∀ s,
  is_Some (storage (foldl dereference s l) !! h) → is_Some (storage s !! h).
Proof.
  induction l as [|a l IH]; intros s; simpl; [done|].
  intros Hs%IH. rewrite dereference_storage in Hs. case_decide; [|done].
  subst. unfold released in Hs. by destruct (storage s !! a).
Qed.

Lemma clear_shrink s k ctx h :
  is_Some (storage (clear s k ctx) !! h) → is_Some (storage s !! h).
Proof.
  unfold clear. destruct (owners s !! k) as [ow|]; [|done].
  case_bool_decide; [done|]. simpl. apply dereference_all_shrink.
Qed.

Lemma call_listeners_shrink ls e h : ∀ s,
  is_Some (storage (call_listeners ls e s).1 !! h) → is_Some (storage s !! h).
Proof.
  induction ls as [|l ls IH]; intros s; simpl; [done|].
  assert (is_Some (storage (call_listener l e s).1 !! h) → is_Some (storage s !! h))
    as Hl.
  { unfold call_listener. destruct (l_event l), e; simpl; try done.
    - unfold deleteListener. case_bool_decide; [|done]. intros Hc%clear_shrink. done.
    - unfold processChangeListener. case_bool_decide; [|done].
      destruct (owners s !! l_ownerKey l); [|done]. by destruct (getOwnerKey _ _). }
  destruct (call_listener l e s) as [s1 [[]|]]; simpl in *; [|done].
  intros Hs%IH. auto.
Qed.

Lemma step_stores_returned s c h :
  wf s → is_Some (storage (step s c).1 !! h) →
  is_Some (storage s !! h) ∨ (step s c).2 = Some h.
Proof.
  intros Hwf. destruct c as [w ctx o|w ctx id|k ctx|em e]; simpl.
  - destruct (add_effect s w ctx o Hwf) as (s' & id & p & -> & _ & _ & _ & _ & Hso & _).
    simpl. destruct (decide (h = id)) as [->|Hne]; [by right|].
    rewrite Hso by done. by left.
  - intros Hs. left. destruct (decide (h = id)) as [->|Hne].
    + unfold remove in Hs. rewrite getOwnerKey_webContents in Hs.
      destruct (owners s !! ownerKeyOf w); [|done].
      case_bool_decide; [|done]. rewrite dereference_storage in Hs.
      rewrite decide_True in Hs by done. simpl in Hs. unfold released in Hs.
      by destruct (storage s !! id).
    + by rewrite (proj1 (remove_frame_storage s w ctx id) h Hne) in Hs.
  - intros Hs%clear_shrink. by left.
  - intros Hs%call_listeners_shrink. by left.
Qed.

Lemma run_from_stores_returned cs h : ∀ s,
  wf s → is_Some (storage (run_from s cs) !! h) →
  is_Some (storage s !! h) ∨ h ∈ returned_from s cs.
Proof.
  induction cs as [|c cs IH]; intros s Hwf Hs; [by left|].
  change (run_from s (c :: cs)) with (run_from (step s c).1 cs) in Hs.
  destruct (IH _ (step_wf s c Hwf) Hs) as [H1|Hin].
  - destruct (step_stores_returned s c h Hwf H1) as [?|Hret]; [by left|right].
    simpl. destruct (step s c) as [s' [r|]]; simpl in *; [|done].
    injection Hret as ->. apply elem_of_cons. by left.
  - right. simpl. destruct (step s c) as [s' [r|]]; simpl in *; [|done].
    apply elem_of_cons. by right.
Qed.

(** X15. [get] retrieves an object only under a handle that an earlier
    [add] of the run returned: no call or notification makes any other
    number retrievable. *)
Theorem only_returned_handles_are_retrievable (cs : list call) (h : Z) (o : obj) :
  get (run cs) h = Some o → h ∈ returned cs.
Proof.
  intros Hget.
  destruct (run_from_stores_returned cs h constructor constructor_wf) as [Hs|Hin].
  - fold (run cs). unfold get in Hget.
    destruct (storage (run cs) !! h); [eauto|done].
  - simpl in Hs. rewrite lookup_empty in Hs. by destruct Hs.
  - done.
Qed.

Lemma only_returned_handles_are_retrievable_witness :
  1 ∈ returned [Add (E1 10) "ctxA" objX; Add (E2 11) "ctxB" objY].
Proof.
  exact (only_returned_handles_are_retrievable
           [Add (E1 10) "ctxA" objX; Add (E2 11) "ctxB" objY] 1 objX eq_refl).
Defined.
